(** * em-photographe-api: controllers, record store and managed files

    A shallow embedding of the Express controllers of the repository
    (controller/ImageCtrl.js, controller/UserCtrl.js, the Sequelize models
    and the two routers) as executable state-passing functions, followed by
    the properties of the specification that concern them.

    The handlers are asynchronous JavaScript functions; every [await] is a
    sequencing point of one request, so a handler is modelled as a
    computation over a [World] (rows, files on disk, the response object and
    the ordered list of effects issued so far) that either completes or
    throws. *)

From stdpp Require Import base option list gmap sets strings pretty.

Open Scope string_scope.
Open Scope list_scope.
Open Scope stdpp_scope.

(** ** JavaScript values that reach the controllers *)

(** A form field, an environment string or a property read: [None] is
    [undefined]. *)
Abbreviation jsstring := (option string).

(** Truthiness of a string-or-undefined value ([if (password)],
    [image && image.newFilename]). *)
Definition truthy (v : jsstring) : bool :=
  match v with
  | Some s => negb (bool_decide (s = ""))
  | None => false
  end.

(** [a === b] on string-or-undefined values. *)
Definition js_eq (a b : jsstring) : bool := bool_decide (a = b).

(** String conversion in a concatenation or a template literal. *)
Definition js_str (v : jsstring) : string :=
  match v with
  | Some s => s
  | None => "undefined"
  end.

(** ** Rows of the two Sequelize models *)

(** model/ImageModel.js: id, url, description, gallery. *)
Record ImageRow := mkImage {
  img_id : Z;
  img_url : string;
  img_description : string;
  img_gallery : string
}.

(** model/UserModel.js: id, name, email, image, password. *)
Record UserRow := mkUser {
  usr_id : Z;
  usr_name : string;
  usr_email : string;
  usr_image : string;
  usr_password : string
}.

Global Instance ImageRow_eq_dec : EqDecision ImageRow.
Proof. solve_decision. Defined.

Global Instance UserRow_eq_dec : EqDecision UserRow.
Proof. solve_decision. Defined.

(** ** Responses *)

#[local] Set Warnings "-register-all".

(** A JSON body.  [JEnv n] is the string held by the environment variable
    [n]; [JEnvOr a b] is [a || b] on two of them. *)
Inductive Json :=
| JNull
| JNum (z : Z)
| JStr (s : string)
| JEnv (name : string)
| JEnvOr (a b : string)
| JObj (kvs : list (string * Json))
| JArr (items : list Json).

Definition message (m : Json) : Json := JObj [("message", m)].

(** The keys of a JSON object. *)
Definition json_keys (j : Json) : list string :=
  match j with
  | JObj kvs => kvs.*1
  | _ => []
  end.

Definition has_key (k : string) (j : Json) : bool :=
  bool_decide (k ∈ json_keys j).

(** What Sequelize serialises for a row: every attribute of the model. *)
Definition image_toJSON (r : ImageRow) : Json :=
  JObj [("id", JNum (img_id r)); ("url", JStr (img_url r));
        ("description", JStr (img_description r));
        ("gallery", JStr (img_gallery r))].

Definition user_toJSON (u : UserRow) : Json :=
  JObj [("id", JNum (usr_id u)); ("name", JStr (usr_name u));
        ("email", JStr (usr_email u)); ("image", JStr (usr_image u));
        ("password", JStr (usr_password u))].

Record Response := mkResponse { status : nat; body : Json }.

(** ** Effects, in the order the handler issues them *)

Inductive Table := Images | Users.

Inductive Event :=
| FsUnlink (path : string)
| FsSetImage (input output : string)
| DbRead (t : Table)
| DbCreate (t : Table)
| DbUpdate (t : Table) (id : Z)
| DbDestroy (t : Table) (id : Z)
| Hash (cost : nat)
| Sent (code : nat).

Definition is_fs (e : Event) : bool :=
  match e with
  | FsUnlink _ | FsSetImage _ _ => true
  | _ => false
  end.

Definition is_db_write (e : Event) : bool :=
  match e with
  | DbCreate _ | DbUpdate _ _ | DbDestroy _ _ => true
  | _ => false
  end.

(** ** The world a request runs in *)

Record World := mkWorld {
  images : list ImageRow;
  users : list UserRow;
  image_seq : Z;              (* next auto-increment id of Images *)
  user_seq : Z;               (* next auto-increment id of Users *)
  disk : gset string;         (* paths of the files that exist *)
  res : option Response;      (* what the response object has sent *)
  trace : list Event          (* effects issued, oldest first *)
}.

Definition with_images (f : list ImageRow → list ImageRow) (w : World) : World :=
  mkWorld (f (images w)) (users w) (image_seq w) (user_seq w) (disk w) (res w) (trace w).
Definition with_users (f : list UserRow → list UserRow) (w : World) : World :=
  mkWorld (images w) (f (users w)) (image_seq w) (user_seq w) (disk w) (res w) (trace w).
Definition with_image_seq (z : Z) (w : World) : World :=
  mkWorld (images w) (users w) z (user_seq w) (disk w) (res w) (trace w).
Definition with_user_seq (z : Z) (w : World) : World :=
  mkWorld (images w) (users w) (image_seq w) z (disk w) (res w) (trace w).
Definition with_disk (d : gset string) (w : World) : World :=
  mkWorld (images w) (users w) (image_seq w) (user_seq w) d (res w) (trace w).
Definition with_res (r : option Response) (w : World) : World :=
  mkWorld (images w) (users w) (image_seq w) (user_seq w) (disk w) r (trace w).
Definition emit (e : Event) (w : World) : World :=
  mkWorld (images w) (users w) (image_seq w) (user_seq w) (disk w) (res w) (trace w ++ [e]).

(** A new request meets the rows and files the previous one left, with a
    fresh response object. *)
Definition next_request (w : World) : World := with_res None w.

(** ** Computations that may throw *)

Inductive Outcome (A : Type) :=
| Done (a : A)
| Thrown.
Arguments Done {A} a.
Arguments Thrown {A}.

Definition M (A : Type) : Type := World → Outcome A * World.

Definition ret {A} (a : A) : M A := λ w, (Done a, w).
Definition throw {A} : M A := λ w, (Thrown, w).
Definition bind {A B} (m : M A) (k : A → M B) : M B :=
  λ w, match m w with
       | (Done a, w') => k a w'
       | (Thrown, w') => (Thrown, w')
       end.

Declare Scope js_scope.
Delimit Scope js_scope with js.
Notation "x <- m ;; k" := (bind m (λ x, k))
  (at level 100, m at next level, k at level 200, right associativity) : js_scope.
Notation "m ;; k" := (bind m (λ _, k))
  (at level 100, k at level 200, right associativity) : js_scope.
Open Scope js_scope.

(** [try { body } catch (error) { handler }]: the state reached when the
    exception was raised is kept. *)
Definition try_catch (body handler : M unit) : M unit :=
  λ w, match body w with
       | (Done a, w') => (Done a, w')
       | (Thrown, w') => handler w'
       end.

(** [for (const x of xs) f(x)] and [xs.forEach(f)]. *)
Fixpoint for_each {A} (f : A → M unit) (xs : list A) : M unit :=
  match xs with
  | [] => ret tt
  | x :: xs' => f x ;; for_each f xs'
  end.

(** The world a handler leaves behind. *)
Definition run {A} (m : M A) (w : World) : World := (m w).2.

(** ** What the process receives from outside the source files

    The configuration read from [process.env], the clock, and the helpers
    that the controllers import from app/middlewares and from bcrypt.  The
    handlers are defined for any such environment. *)
Record Env := mkEnv {
  IMG_URL : string;
  IMG_EXT : string;
  STRING_MIN : nat;
  STRING_MAX : nat;
  TEXT_MAX : nat;
  (* the decimal rendering of Date.now() for this request *)
  now : string;
  checkRange : jsstring → nat → nat → bool;
  checkEmail : jsstring → bool;
  checkPassword : jsstring → bool;
  (* getName(name); [None] when the helper throws *)
  getName : jsstring → option string;
  (* setImage(input, output) of the middlewares, as a change of the files
     on disk; [None] when it rejects *)
  setImage : string → string → gset string → option (gset string);
  (* bcrypt.hash(data, rounds), with the salt it draws for this request *)
  bcrypt_hash : string → nat → string;
  (* whether the store rejects the reading, resp. the writing statement of
     this request for a reason other than the constraints of the schema
     (lost connection, ...) *)
  db_read_fails : bool;
  db_write_fails : bool
}.

(** Modelled from the spec: [checkRange] of app/middlewares, absent from the
    sources: "fails (returns false) when length is outside [min, max]
    inclusive, or value is absent". *)
Definition spec_checkRange (value : jsstring) (min max : nat) : bool :=
  match value with
  | Some s => bool_decide (min ≤ String.length s ≤ max)%nat
  | None => false
  end.

(** Modelled from the spec: [setImage] of app/middlewares ("materialize"),
    absent from the sources: "copies/moves the temp file into the resource's
    storage directory under generatedName; tempPath must exist and be
    readable; creates exactly one new file" and leaves the temp file to the
    caller.  [dir] is the storage directory. *)
Definition spec_setImage (dir input output : string) (d : gset string)
  : option (gset string) :=
  if bool_decide (dir +:+ input ∈ d) then Some ({[dir +:+ output]} ∪ d) else None.

(** The fields and the file that formidable hands to an image handler.
    The handlers spread [fields] into the values they give to the store
    ([{ ...fields }]): of its keys, those that name an attribute of the
    model reach the row, the primary key [id] among them.  [if_id] is the
    [id] key of the request, when it carries one; like [ID] in the
    handlers, it is taken to be a number. *)
Record ImageForm := mkImageForm {
  if_error : bool;            (* err of the parse callback *)
  if_id : option Z;
  if_url : jsstring;
  if_description : jsstring;
  if_gallery : jsstring;
  if_upload : jsstring        (* files.image && files.image.newFilename *)
}.

(** The fields and the file that formidable hands to a user handler;
    [uf_id] is the [id] key of the request, as [if_id]. *)
Record UserForm := mkUserForm {
  uf_error : bool;
  uf_id : option Z;
  uf_name : jsstring;
  uf_email : jsstring;
  uf_password : jsstring;
  uf_upload : jsstring
}.

(** The value of a column after an UPDATE with the given field: Sequelize
    drops the keys whose value is [undefined]. *)
Definition patch (new : jsstring) (old : string) : string := default old new.

(** ** The constraints of the schema

    Both models declare [id] as the primary key, and [unique: true] on
    [url] for an image and on [name], [email] and [image] for a user.  Two
    rows clash when one table cannot hold both. *)
Definition image_clash (a b : ImageRow) : Prop :=
  img_id a = img_id b ∨ img_url a = img_url b.

Definition user_clash (a b : UserRow) : Prop :=
  usr_id a = usr_id b ∨ usr_name a = usr_name b ∨
  usr_email a = usr_email b ∨ usr_image a = usr_image b.

Global Instance image_clash_dec : RelDecision image_clash.
Proof. intros a b. unfold image_clash. apply _. Defined.

Global Instance user_clash_dec : RelDecision user_clash.
Proof. intros a b. unfold user_clash. apply _. Defined.

(** The id of a created row: the [id] key of the values when there is one,
    else the auto-increment counter. *)
Definition new_id (id : option Z) (seq : Z) : Z := default seq id.

(** The counter after a successful INSERT; it moves past an id that was
    given explicitly. *)
Definition next_seq (id : option Z) (seq : Z) : Z :=
  match id with
  | None => seq + 1
  | Some k => Z.max seq (k + 1)
  end.

(** The row [r] after an UPDATE with the given values. *)
Definition image_set (id : option Z) (url description gallery : jsstring)
    (r : ImageRow) : ImageRow :=
  mkImage (default (img_id r) id) (patch url (img_url r))
    (patch description (img_description r)) (patch gallery (img_gallery r)).

Definition user_set (id : option Z) (name email image password : jsstring)
    (u : UserRow) : UserRow :=
  mkUser (default (usr_id u) id) (patch name (usr_name u))
    (patch email (usr_email u)) (patch image (usr_image u))
    (patch password (usr_password u)).

(** The rows after [UPDATE ... WHERE id = ID] has set each matching row to
    [set row]. *)
Definition update_where {A} (key : A → Z) (ID : Z) (set : A → A) (rows : list A)
  : list A :=
  (λ r, if bool_decide (key r = ID) then set r else r) <$> rows.

(** The store accepts the UPDATE when no row it writes clashes with a row
    it leaves alone (the primary key lets at most one row match). *)
Definition update_accepted {A} (key : A → Z) (clash : relation A)
    (ID : Z) (set : A → A) (rows : list A) : Prop :=
  Forall (λ r, key r = ID →
               Forall (λ r', key r' ≠ ID → ¬ clash (set r) r') rows) rows.

Global Instance update_accepted_dec {A} (key : A → Z) (clash : relation A)
    `{!RelDecision clash} (ID : Z) (set : A → A) (rows : list A) :
  Decision (update_accepted key clash ID set rows).
Proof. unfold update_accepted. apply _. Defined.

(** In the handlers, [ID] is [parseInt(req.params.id, 10)], taken to be a
    number. *)
Section Controllers.

Context (env : Env).

(** *** The response object *)

(** [res.status(code).json(body)].  Once a response has been sent, Express
    throws (ERR_HTTP_HEADERS_SENT) and the client keeps the first one. *)
Definition respond (code : nat) (b : Json) : M unit := λ w,
  match res w with
  | Some _ => (Thrown, w)
  | None => (Done tt, emit (Sent code) (with_res (Some (mkResponse code b)) w))
  end.

(** *** The file system *)

(** [fs.promises.unlink(path)] rejects when the file does not exist. *)
Definition fs_unlink (path : string) : M unit := λ w,
  let w1 := emit (FsUnlink path) w in
  if bool_decide (path ∈ disk w)
  then (Done tt, with_disk (disk w ∖ {[path]}) w1)
  else (Thrown, w1).

(** [setImage(input, output)] imported from app/middlewares. *)
Definition middlewares_setImage (input output : string) : M unit := λ w,
  let w1 := emit (FsSetImage input output) w in
  match setImage env input output (disk w) with
  | Some d => (Done tt, with_disk d w1)
  | None => (Thrown, w1)
  end.

(** Reading an identifier that no enclosing scope declares. *)
Definition js_unbound (name : string) : M string := throw.

(** *** The record store *)

Definition Image_findAll : M (list ImageRow) := λ w,
  let w1 := emit (DbRead Images) w in
  if db_read_fails env then (Thrown, w1) else (Done (images w), w1).

(** [Image.findAll({ where: { gallery } })]; Sequelize rejects a where
    clause whose value is [undefined]. *)
Definition Image_findAll_where_gallery (g : jsstring) : M (list ImageRow) := λ w,
  let w1 := emit (DbRead Images) w in
  if db_read_fails env then (Thrown, w1)
  else match g with
       | Some g => (Done (filter (λ r, img_gallery r = g) (images w)), w1)
       | None => (Thrown, w1)
       end.

Definition Image_findByPk (ID : Z) : M (option ImageRow) := λ w,
  let w1 := emit (DbRead Images) w in
  if db_read_fails env then (Thrown, w1)
  else (Done (head (filter (λ r, img_id r = ID) (images w))), w1).

(** [Image.create(values)]: the three columns are [allowNull: false]; the
    id is the one of the values or else auto-incremented; keys that are no
    attribute of the model (such as [name]) are not stored.  The store
    refuses a row that clashes with one it holds. *)
Definition Image_create (id : option Z) (url description gallery : jsstring)
  : M unit := λ w,
  let w1 := emit (DbCreate Images) w in
  match url, description, gallery with
  | Some u, Some d, Some g =>
      let row := mkImage (new_id id (image_seq w)) u d g in
      if db_write_fails env then (Thrown, w1)
      else if bool_decide (Exists (image_clash row) (images w)) then (Thrown, w1)
      else (Done tt,
            with_image_seq (next_seq id (image_seq w))
              (with_images (λ l, l ++ [row]) w1))
  | _, _, _ => (Thrown, w1)
  end.

(** [Image.update(values, { where: { id: ID } })]; an [id] among the values
    rewrites the primary key. *)
Definition Image_update (id : option Z) (url description gallery : jsstring)
    (ID : Z) : M unit := λ w,
  let w1 := emit (DbUpdate Images ID) w in
  let set := image_set id url description gallery in
  if db_write_fails env then (Thrown, w1)
  else if bool_decide (update_accepted img_id image_clash ID set (images w))
  then (Done tt, with_images (update_where img_id ID set) w1)
  else (Thrown, w1).

(** [Image.destroy({ where: { id: ID } })]. *)
Definition Image_destroy (ID : Z) : M unit := λ w,
  let w1 := emit (DbDestroy Images ID) w in
  if db_write_fails env then (Thrown, w1)
  else (Done tt, with_images (filter (λ r, img_id r ≠ ID)) w1).

Definition User_findAll : M (list UserRow) := λ w,
  let w1 := emit (DbRead Users) w in
  if db_read_fails env then (Thrown, w1) else (Done (users w), w1).

Definition User_findByPk (ID : Z) : M (option UserRow) := λ w,
  let w1 := emit (DbRead Users) w in
  if db_read_fails env then (Thrown, w1)
  else (Done (head (filter (λ u, usr_id u = ID) (users w))), w1).

(** [User.create(values)]: the four columns are [allowNull: false]; the id
    and the constraints are as for [Image.create]. *)
Definition User_create (id : option Z) (name email image password : jsstring)
  : M unit := λ w,
  let w1 := emit (DbCreate Users) w in
  match name, email, image, password with
  | Some n, Some e, Some i, Some p =>
      let row := mkUser (new_id id (user_seq w)) n e i p in
      if db_write_fails env then (Thrown, w1)
      else if bool_decide (Exists (user_clash row) (users w)) then (Thrown, w1)
      else (Done tt,
            with_user_seq (next_seq id (user_seq w))
              (with_users (λ l, l ++ [row]) w1))
  | _, _, _, _ => (Thrown, w1)
  end.

(** [User.update(values, { where: { id: ID } })]. *)
Definition User_update (id : option Z) (name email image password : jsstring)
    (ID : Z) : M unit := λ w,
  let w1 := emit (DbUpdate Users ID) w in
  let set := user_set id name email image password in
  if db_write_fails env then (Thrown, w1)
  else if bool_decide (update_accepted usr_id user_clash ID set (users w))
  then (Done tt, with_users (update_where usr_id ID set) w1)
  else (Thrown, w1).

(** [User.destroy({ where: { id: ID } })]. *)
Definition User_destroy (ID : Z) : M unit := λ w,
  let w1 := emit (DbDestroy Users ID) w in
  if db_write_fails env then (Thrown, w1)
  else (Done tt, with_users (filter (λ u, usr_id u ≠ ID)) w1).

(** [bcrypt.hash(data, rounds)] rejects when [data] is [undefined]. *)
Definition bcrypt_hash_call (data : jsstring) (rounds : nat) : M string := λ w,
  match data with
  | Some s => (Done (bcrypt_hash env s rounds), emit (Hash rounds) w)
  | None => (Thrown, w)
  end.

(** *** controller/ImageCtrl.js *)

(** A failed check sends the 403; the [return] leaves the helper only, and
    no caller looks at what the helper returned. *)
Definition checkImageData (description : jsstring) : M unit :=
  if checkRange env description (STRING_MIN env) (TEXT_MAX env)
  then ret tt
  else respond 403 (message (JEnv "CHECK_NAME")).

Definition checkImageUnique (url : jsstring) (image : ImageRow) : M unit :=
  if js_eq (Some (img_url image)) url
  then respond 403 (message (JEnv "DISPO_URL"))
  else ret tt.

Definition setImages (input output : string) : M unit :=
  middlewares_setImage input output.

Definition listImages : M unit :=
  try_catch
    (imgs <- Image_findAll ;;
     respond 200 (JArr (image_toJSON <$> imgs)))
    (respond 404 (message (JEnv "IMAGES_NOT_FOUND"))).

(** [findAll] resolves to an array, so the [!images] guard of the source is
    never taken.  Of [{ ...fields, name: IMG }], given to [Image.create],
    the key [name] is no attribute of the model. *)
Definition createImage (rq : ImageForm) : M unit :=
  if if_error rq then ret tt (* next(err) *) else
  try_catch
    (checkImageData (if_description rq) ;;
     imgs <- Image_findAll_where_gallery (if_gallery rq) ;;
     for_each (checkImageUnique (if_url rq)) imgs ;;
     let IMG := now env +:+ "." +:+ IMG_EXT env in
     (if truthy (if_upload rq) then
        setImages (js_str (if_upload rq)) IMG ;;
        fs_unlink (IMG_URL env +:+ js_str (if_upload rq))
      else ret tt) ;;
     Image_create (if_id rq) (if_url rq) (if_description rq) (if_gallery rq) ;;
     respond 201 (message (JEnv "IMAGE_CREATED")))
    (respond 400 (message (JEnv "IMAGE_NOT_CREATED"))).

(** [row.image] on a row of the Image model, which declares no such
    attribute: the read yields [undefined]. *)
Definition img_image (r : ImageRow) : jsstring := None.

(** In the branch of a new file, [IMG_EXT] is read where neither the
    handler nor the module declares it. *)
Definition updateImage (ID : Z) (rq : ImageForm) : M unit :=
  if if_error rq then ret tt (* next(err) *) else
  try_catch
    (checkImageData (if_description rq) ;;
     imgs <- Image_findAll_where_gallery (if_gallery rq) ;;
     match imgs with
     | [] => respond 404 (message (JEnv "IMAGES_NOT_FOUND"))
     | _ =>
       for_each (checkImageUnique (if_url rq))
                (filter (λ r, img_id r ≠ ID) imgs) ;;
       let img := head (filter (λ r, img_id r = ID) imgs) ≫= img_image in
       (if truthy (if_upload rq) then
          fs_unlink (IMG_URL env +:+ js_str img) ;;
          ext <- js_unbound "IMG_EXT" ;;
          let img := now env +:+ "." +:+ ext in
          setImages (js_str (if_upload rq)) (js_str (if_url rq)) ;;
          fs_unlink (IMG_URL env +:+ js_str (if_upload rq))
        else ret tt) ;;
       Image_update (if_id rq) (if_url rq) (if_description rq) (if_gallery rq) ID ;;
       respond 200 (message (JEnv "IMAGE_UPDATED"))
     end)
    (respond 400 (message (JEnv "IMAGE_NOT_UPDATED"))).

Definition deleteImage (ID : Z) : M unit :=
  try_catch
    (image <- Image_findByPk ID ;;
     match image with
     | None => respond 404 (message (JEnv "IMAGE_NOT_FOUND"))
     | Some image =>
       fs_unlink (IMG_URL env +:+ img_url image) ;;
       Image_destroy ID ;;
       respond 204 (message (JEnv "IMAGE_DELETED"))
     end)
    (respond 400 (message (JEnv "IMAGE_NOT_DELETED"))).

(** *** controller/UserCtrl.js *)

Definition USERS_IMG : string := IMG_URL env +:+ "users/".

Definition checkUserData (name email : jsstring) : M unit :=
  let IS_NAME_CHECKED := checkRange env name (STRING_MIN env) (STRING_MAX env) in
  let IS_EMAIL_CHECKED := checkEmail env email in
  if negb IS_NAME_CHECKED || negb IS_EMAIL_CHECKED
  then respond 403 (message (JEnvOr "CHECK_NAME" "CHECK_EMAIL"))
  else ret tt.

Definition checkUserPassword (password : jsstring) : M unit :=
  if checkPassword env password
  then ret tt
  else respond 403 (message (JEnv "CHECK_PASSWORD")).

Definition checkUserUnique (name email : jsstring) (user : UserRow) : M unit :=
  if js_eq (Some (usr_name user)) name || js_eq (Some (usr_email user)) email
  then respond 403 (message (JEnvOr "DISPO_NAME" "DISPO_EMAIL"))
  else ret tt.

(** The [setImage] of the user controller binds two path strings and
    returns. *)
Definition UserCtrl_setImage (input output : string) : M unit :=
  let INPUT := "users/" +:+ input in
  let OUTPUT := "users/" +:+ output in
  ret tt.

(** [getName(name)], imported from app/middlewares. *)
Definition getName_call (name : jsstring) : M string := λ w,
  match getName env name with
  | Some s => (Done s, w)
  | None => (Thrown, w)
  end.

Definition createUser (rq : UserForm) : M unit :=
  if uf_error rq then ret tt (* next(err) *) else
  try_catch
    (checkUserData (uf_name rq) (uf_email rq) ;;
     checkUserPassword (uf_password rq) ;;
     us <- User_findAll ;;
     for_each (checkUserUnique (uf_name rq) (uf_email rq)) us ;;
     slug <- getName_call (uf_name rq) ;;
     let IMG := slug +:+ "-" +:+ now env +:+ "." +:+ IMG_EXT env in
     (if truthy (uf_upload rq) then
        UserCtrl_setImage (js_str (uf_upload rq)) IMG ;;
        fs_unlink (USERS_IMG +:+ js_str (uf_upload rq))
      else ret tt) ;;
     hash <- bcrypt_hash_call (uf_password rq) 10 ;;
     User_create (uf_id rq) (uf_name rq) (uf_email rq) (Some IMG) (Some hash) ;;
     respond 201 (message (JEnv "USER_CREATED")))
    (respond 400 (message (JEnv "USER_NOT_CREATED"))).

(** The rows are mapped to id, name, email and image. *)
Definition listUsers : M unit :=
  try_catch
    (us <- User_findAll ;;
     let usersList :=
       (λ user, JObj [("id", JNum (usr_id user)); ("name", JStr (usr_name user));
                      ("email", JStr (usr_email user));
                      ("image", JStr (usr_image user))]) <$> us in
     respond 200 (JArr usersList))
    (respond 404 (message (JEnv "USERS_NOT_FOUND"))).

(** [User.findByPk(ID).then(user => res.status(200).json(user)).catch(...)]:
    the row, or [null], is serialised as it is. *)
Definition readUser (ID : Z) : M unit :=
  try_catch
    (user <- User_findByPk ID ;;
     respond 200 (from_option user_toJSON JNull user))
    (respond 404 (message (JEnv "USER_NOT_FOUND"))).

Definition updateUser (ID : Z) (rq : UserForm) : M unit :=
  if uf_error rq then ret tt (* next(err) *) else
  try_catch
    (checkUserData (uf_name rq) (uf_email rq) ;;
     us <- User_findAll ;;
     match us with
     | [] => respond 404 (message (JEnv "USER_NOT_FOUND"))
     | _ =>
       for_each (checkUserUnique (uf_name rq) (uf_email rq))
                (filter (λ u, usr_id u ≠ ID) us) ;;
       let img := head (filter (λ u, usr_id u = ID) us) ≫= (λ u, Some (usr_image u)) in
       img <- (if truthy (uf_upload rq) then
                 slug <- getName_call (uf_name rq) ;;
                 let img := slug +:+ "-" +:+ now env +:+ "." +:+ IMG_EXT env in
                 UserCtrl_setImage (js_str (uf_upload rq)) img ;;
                 fs_unlink (USERS_IMG +:+ js_str (uf_upload rq)) ;;
                 ret (Some img)
               else ret img) ;;
       user <- (if truthy (uf_password rq) then
                  checkUserPassword (uf_password rq) ;;
                  hash <- bcrypt_hash_call (uf_password rq) 10 ;;
                  ret (uf_name rq, uf_email rq, img, Some hash)
                else
                  ret (uf_name rq, uf_email rq, img, uf_password rq)) ;;
       let '(name, email, image, password) := user in
       User_update (uf_id rq) name email image password ID ;;
       respond 200 (message (JEnv "USER_UPDATED"))
     end)
    (respond 400 (message (JEnv "USER_NOT_UPDATED"))).

Definition deleteUser (ID : Z) : M unit :=
  try_catch
    (user <- User_findByPk ID ;;
     match user with
     | None => respond 404 (message (JEnv "USER_NOT_FOUND"))
     | Some _ =>
       User_destroy ID ;;
       respond 204 (message (JEnv "USER_DELETED"))
     end)
    (respond 404 (message (JEnv "USER_NOT_FOUND"))).

End Controllers.

(** ** route/AuthRoute.js and route/ImageRoute.js

    app/app.js installs [express.json()], [cors()] and [helmet()], none of
    which authenticates, and mounts the routers at [ROUTE_AUTH] and
    [ROUTE_IMAGE]; the paths below are relative to the mount point.  A
    path is the list of its (non-empty) segments; both routers are made
    by [express.Router()] with no option, so that a trailing slash makes
    no difference and the letters of a literal segment match in either
    case. *)

Module Routes.

Inductive Method := GET | POST | PUT | DELETE.

(** A segment of a route path: a literal, or a [:name] parameter. *)
Inductive Segment := Lit (s : string) | Param (name : string).

Inductive Handler :=
| checkAuth
| AuthCtrl_readAvatar
| AuthCtrl_loginUser
| AuthCtrl_forgotPassword
| AuthCtrl_checkRecaptcha
| ImageCtrl_listImages
| ImageCtrl_createImage
| ImageCtrl_updateImage
| ImageCtrl_deleteImage.

Global Instance Method_eq_dec : EqDecision Method.
Proof. solve_decision. Defined.
Global Instance Handler_eq_dec : EqDecision Handler.
Proof. solve_decision. Defined.

Record Route := mkRoute {
  r_method : Method;
  r_path : list Segment;
  r_chain : list Handler
}.

(** [router.get("/:id", ...)], [router.post("/", ...)], ... in the order
    of registration. *)
Definition AuthRoute : list Route :=
  [ mkRoute GET [Param "id"] [AuthCtrl_readAvatar];
    mkRoute POST [] [AuthCtrl_loginUser];
    mkRoute POST [Lit "password"] [AuthCtrl_forgotPassword];
    mkRoute POST [Lit "recaptcha"] [AuthCtrl_checkRecaptcha] ].

Definition ImageRoute : list Route :=
  [ mkRoute GET [] [ImageCtrl_listImages];
    mkRoute POST [] [checkAuth; ImageCtrl_createImage];
    mkRoute PUT [Param "id"] [checkAuth; ImageCtrl_updateImage];
    mkRoute DELETE [Param "id"] [checkAuth; ImageCtrl_deleteImage] ].

(** The lower-case form of a letter A..Z, and of a string. *)
Definition ascii_lower (c : Ascii.ascii) : Ascii.ascii :=
  let n := Ascii.nat_of_ascii c in
  if Nat.leb 65 n && Nat.leb n 90 then Ascii.ascii_of_nat (n + 32) else c.

Fixpoint lower (s : string) : string :=
  match s with
  | EmptyString => EmptyString
  | String c s' => String (ascii_lower c) (lower s')
  end.

Fixpoint path_matches (pat : list Segment) (path : list string) : bool :=
  match pat, path with
  | [], [] => true
  | Lit s :: pat', x :: path' =>
      bool_decide (lower s = lower x) && path_matches pat' path'
  | Param _ :: pat', _ :: path' => path_matches pat' path'
  | _, _ => false
  end.

(** The chain of the first route registered for the method and the path
    (relative to the mount point of the router). *)
Definition dispatch (router : list Route) (m : Method) (path : list string)
  : option (list Handler) :=
  r_chain <$> head (filter (λ r, r_method r = m ∧ path_matches (r_path r) path) router).

(** The handlers of a chain that Express runs.  A handler of a chain runs
    when the one before it has called [next()]: the controllers answer the
    request and do not call it; [auth_ok] tells whether [checkAuth] does. *)
Fixpoint invoked (auth_ok : bool) (chain : list Handler) : list Handler :=
  match chain with
  | [] => []
  | checkAuth :: rest => checkAuth :: (if auth_ok then invoked auth_ok rest else [])
  | h :: _ => [h]
  end.

End Routes.

(** ** Relations between the world before and after a computation *)

(** [stable R m]: whatever [m] does, completing or throwing, the world it
    leaves is related by [R] to the one it started in. *)
Definition stable {A} (R : relation World) (m : M A) : Prop :=
  ∀ w, R w (run m w).

(** [m] never completes normally. *)
Definition never_done {A} (m : M A) : Prop :=
  ∀ w, (m w).1 = Thrown.

(** [hoare P m Q]: started in a world that satisfies [P], the computation
    ends, completing or throwing, with an outcome and in a world that
    satisfy [Q]. *)
Definition hoare {A} (P : World → Prop) (m : M A) (Q : Outcome A → World → Prop) : Prop :=
  ∀ w, P w → Q (m w).1 (m w).2.

(** Rows, counters and files are the same; the response object and the
    trace may differ. *)
Definition same_data (w w' : World) : Prop :=
  images w' = images w ∧ users w' = users w ∧
  image_seq w' = image_seq w ∧ user_seq w' = user_seq w ∧
  disk w' = disk w.

(** *** Responses *)

(** The client has been answered with the status [code]. *)
Definition answered (code : nat) (w : World) : Prop :=
  status <$> res w = Some code.

(** Once sent, a response is not replaced. *)
Definition first_response_kept (w w' : World) : Prop :=
  ∀ r, res w = Some r → res w' = Some r.

(** The response object is untouched, or it has answered 403. *)
Definition unanswered_or_403 (w : World) : Prop :=
  res w = None ∨ answered 403 w.

(** After the description check of a request started in [w0]: nothing was
    thrown, the image rows are those of [w0], and the response is unsent or
    a 403. *)
Definition checked (w0 : World) (o : Outcome unit) (w : World) : Prop :=
  o = Done tt ∧ images w = images w0 ∧ unanswered_or_403 w.

(** After the read of the gallery named in [rq]: the rows of that gallery. *)
Definition loaded (rq : ImageForm) (w0 : World)
    (o : Outcome (list ImageRow)) (w : World) : Prop :=
  ∃ imgs, o = Done imgs ∧
          imgs = filter (λ x, Some (img_gallery x) = if_gallery rq) (images w0) ∧
          unanswered_or_403 w.

(** *** Files *)

(** No file operation was issued and no file changed. *)
Definition no_fs (w w' : World) : Prop :=
  disk w' = disk w ∧ filter is_fs (trace w') = filter is_fs (trace w).

(** No file was added. *)
Definition no_new_file (w w' : World) : Prop := disk w' ⊆ disk w.

(** The file and store mutations issued since [w], oldest first. *)
Definition is_mutation (e : Event) : bool := is_fs e || is_db_write e.


(** The effects issued since [w] are such that every file or store
    mutation among them is [e0]. *)
Definition mutations_are (e0 : Event) (w w' : World) : Prop :=
  ∃ l, trace w' = trace w ++ l ∧
       ∀ e, e ∈ filter is_mutation l → e = e0.

(** Where formidable has put the uploaded file of an image request. *)
Definition upload_path (env : Env) (rq : ImageForm) : string :=
  IMG_URL env +:+ js_str (if_upload rq).

(** *** Rows *)

(** Every image row comes from a row that was there, with the id it had
    or, for the row [ID], the id sent with the request; its url is the one
    it had or, for the row [ID], the url sent with the request. *)
Definition url_kept_or_from_request (ID : Z) (rq : ImageForm) (w w' : World) : Prop :=
  ∀ r', r' ∈ images w' →
    ∃ r, r ∈ images w ∧
         (img_id r' = img_id r ∨
          (img_id r = ID ∧ Some (img_id r') = if_id rq)) ∧
         (img_url r' = img_url r ∨
          (img_id r = ID ∧ Some (img_url r') = if_url rq)).

(** The id and the image filename of every user row, in order. *)
Definition user_files (w : World) : list (Z * string) :=
  (λ u, (usr_id u, usr_image u)) <$> users w.

(** The image filename of every user row is as in [w0], in order, and so
    is the filename under every id when the request carries no [id] key. *)
Definition user_files_kept (rq : UserForm) (w0 w : World) : Prop :=
  usr_image <$> users w = usr_image <$> users w0 ∧
  (uf_id rq = None → user_files w = user_files w0).

(** The table of images satisfies its schema: no two rows have one id, no
    two rows have one url. *)
Definition images_wf (w : World) : Prop :=
  NoDup (img_id <$> images w) ∧ NoDup (img_url <$> images w).

(** [P] holds after when it held before. *)
Definition keeps (P : World → Prop) (w w' : World) : Prop := P w → P w'.

(** An image, other than [ID] when one is named, of the gallery of the
    request has the url of the request. *)
Definition url_taken_in_gallery (rq : ImageForm) (ID : option Z)
    (rows : list ImageRow) : Prop :=
  Exists (λ r, Some (img_id r) ≠ ID ∧ Some (img_gallery r) = if_gallery rq ∧
               Some (img_url r) = if_url rq) rows.

Global Instance url_taken_in_gallery_dec (rq : ImageForm) (ID : option Z)
    (rows : list ImageRow) : Decision (url_taken_in_gallery rq ID rows).
Proof. unfold url_taken_in_gallery. apply _. Defined.

(** The description of the request fails the range check. *)
Definition bad_description (env : Env) (rq : ImageForm) : Prop :=
  checkRange env (if_description rq) (STRING_MIN env) (TEXT_MAX env) = false.

Global Instance bad_description_dec (env : Env) (rq : ImageForm) :
  Decision (bad_description env rq).
Proof. unfold bad_description. apply _. Defined.

(** No response was sent and the image rows are the same. *)
Definition quiet (w w' : World) : Prop :=
  res w' = res w ∧ images w' = images w.

(** A 403 has not been sent unless it had been before. *)
Definition no_403 (w w' : World) : Prop :=
  ¬ answered 403 w → ¬ answered 403 w'.

(** ** A concrete environment, concrete worlds and requests *)

(** Bounds 2..50 for names and 2..500 for texts; the checks of the spec for
    [checkRange] and [setImage]; stand-ins for the other helpers. *)
Definition demo_env (read_fails write_fails : bool) : Env :=
  mkEnv "img/" "webp" 2 50 500 "1700000000000"
    spec_checkRange
    (λ e, truthy e)
    (λ p, bool_decide (8 ≤ String.length (js_str p))%nat)
    (λ n, n)
    (spec_setImage "img/")
    (λ s rounds, "$2b$" +:+ pretty rounds +:+ "$" +:+ String.rev s)
    read_fails write_fails.

(** The row of user 1 in [demo_world]. *)
Definition ann : UserRow :=
  mkUser 1 "Ann" "ann@x.com" "ann-1.webp" "$2b$10$terces".

(** One image and one user, their files, and two files that formidable has
    just written to the upload directories. *)
Definition demo_world : World :=
  mkWorld [mkImage 1 "a.jpg" "first" "g1"] [ann] 2 2
          {[ "img/a.jpg"; "img/up_1"; "img/users/ann-1.webp"; "img/users/up_2" ]}
          None [].

(** The image row is there and its file is not. *)
Definition world_missing_file : World :=
  mkWorld [mkImage 1 "a.jpg" "first" "g1"] [] 2 1 ∅ None [].

(** Two galleries with one image each. *)
Definition world_two_galleries : World :=
  mkWorld [mkImage 1 "a.jpg" "first" "g1"; mkImage 2 "b.jpg" "second" "g2"] []
          3 1 {[ "img/a.jpg"; "img/b.jpg" ]} None [].

(** A request that replaces the file of image 1. *)
Definition replace_file_of_image_1 : ImageForm :=
  mkImageForm false None (Some "new.jpg") (Some "first") (Some "g1") (Some "up_1").

(** A request with the url of image 1 and the gallery of image 1. *)
Definition same_url_same_gallery : ImageForm :=
  mkImageForm false None (Some "a.jpg") (Some "again") (Some "g1") None.

(** A request with the url of image 1 and the other gallery. *)
Definition same_url_other_gallery : ImageForm :=
  mkImageForm false None (Some "a.jpg") (Some "again") (Some "g2") None.

(** A request for image 1 with another url and no file. *)
Definition rename_image_1 : ImageForm :=
  mkImageForm false None (Some "b.jpg") (Some "first") (Some "g1") None.

(** An image upload whose description is shorter than [STRING_MIN]. *)
Definition short_description : ImageForm :=
  mkImageForm false None (Some "c.jpg") (Some "x") (Some "g1") (Some "up_1").

(** A request for user 1 with other fields, a new password and no file. *)
Definition rename_user_1 : UserForm :=
  mkUserForm false None (Some "Anna") (Some "anna@x.com") (Some "Str0ngP@ss") None.

(** A signup with an uploaded file. *)
Definition signup_bob : UserForm :=
  mkUserForm false None (Some "Bob") (Some "bob@x.com") (Some "Str0ngP@ss") (Some "up_2").

(** A signup under the name of user 1, with an uploaded file. *)
Definition signup_taken_name : UserForm :=
  mkUserForm false None (Some "Ann") (Some "other@x.com") (Some "Str0ngP@ss") (Some "up_2").

(** ** Further vocabulary, for the handlers as a whole *)

(** The world after a first response with status [code] and body [b]. *)
Definition sent (code : nat) (b : Json) (w : World) : World :=
  emit (Sent code) (with_res (Some (mkResponse code b)) w).

(** Rows, counters and files are the same and no file or store mutation
    was issued. *)
Definition no_mutation (w w' : World) : Prop :=
  same_data w w' ∧
  filter is_mutation (trace w') = filter is_mutation (trace w).

(** The user table is as it was. *)
Definition users_untouched (w w' : World) : Prop :=
  users w' = users w ∧ user_seq w' = user_seq w.

(** The image table is as it was. *)
Definition images_untouched (w w' : World) : Prop :=
  images w' = images w ∧ image_seq w' = image_seq w.

(** A 200 has not been sent unless it had been before. *)
Definition no_200 (w w' : World) : Prop :=
  ¬ answered 200 w → ¬ answered 200 w'.

(** The image rows are the same and every file other than [p] is still on
    disk. *)
Definition images_kept_files_but_one (p : string) (w w' : World) : Prop :=
  images w' = images w ∧ ∀ f, f ∈ disk w → f ≠ p → f ∈ disk w'.

(** No [setImage] of the middlewares was called. *)
Definition no_setImage (w w' : World) : Prop :=
  ∀ i o, FsSetImage i o ∈ trace w' → FsSetImage i o ∈ trace w.

(** What [listUsers] sends for a row. *)
Definition user_summary (u : UserRow) : Json :=
  JObj [("id", JNum (usr_id u)); ("name", JStr (usr_name u));
        ("email", JStr (usr_email u)); ("image", JStr (usr_image u))].

(** The name under which [createUser] and [updateUser] would store an
    uploaded file. *)
Definition user_image_name (env : Env) (slug : string) : string :=
  slug +:+ "-" +:+ now env +:+ "." +:+ IMG_EXT env.

(** The name under which [createImage] stores an uploaded file. *)
Definition image_file_name (env : Env) : string :=
  now env +:+ "." +:+ IMG_EXT env.

(** The disk after the file part of [createImage]: untouched without an
    upload, else what [setImage] made of it, less the temporary upload. *)
Definition disk_after_image_upload (env : Env) (rq : ImageForm) (d : gset string)
  : option (gset string) :=
  if truthy (if_upload rq) then
    d' ← setImage env (js_str (if_upload rq)) (image_file_name env) d;
    if bool_decide (upload_path env rq ∈ d')
    then Some (d' ∖ {[upload_path env rq]}) else None
  else Some d.

(** Where formidable has put the uploaded file of a user request. *)
Definition user_upload_path (env : Env) (rq : UserForm) : string :=
  USERS_IMG env +:+ js_str (uf_upload rq).

(** No row of [rows] other than [ID] has the name or the email of the
    request. *)
Definition no_user_collision (rq : UserForm) (ID : option Z) (rows : list UserRow) : Prop :=
  ∀ u, u ∈ rows → Some (usr_id u) ≠ ID →
       Some (usr_name u) ≠ uf_name rq ∧ Some (usr_email u) ≠ uf_email rq.

(** The image name that an update of user [ID] gives to the store: the
    name generated for the new file, or else the one read from the row. *)
Definition update_image_name (env : Env) (ID : Z) (rq : UserForm) (w : World)
    (slug : string) : jsstring :=
  if truthy (uf_upload rq) then Some (user_image_name env slug)
  else head (filter (λ u, usr_id u = ID) (users w)) ≫= (λ u, Some (usr_image u)).

(** The password that an update gives to the store: the hash of a
    non-empty password, or else the password field as it came. *)
Definition update_password (env : Env) (rq : UserForm) : jsstring :=
  if truthy (uf_password rq)
  then Some (bcrypt_hash env (js_str (uf_password rq)) 10)
  else uf_password rq.

(** The row of user [ID] after an update that is let through: id, name and
    email from the request where sent, that image name, that password. *)
Definition updated_user (env : Env) (ID : Z) (rq : UserForm) (w : World)
    (slug : string) : UserRow → UserRow :=
  user_set (uf_id rq) (uf_name rq) (uf_email rq)
    (update_image_name env ID rq w slug) (update_password env rq).

(** A request for user 1 with an empty password field. *)
Definition blank_password_for_user_1 : UserForm :=
  mkUserForm false None (Some "Ann") (Some "ann@x.com") (Some "") None.

(** A request for user 1 with a new file. *)
Definition new_file_for_user_1 : UserForm :=
  mkUserForm false None (Some "Ann") (Some "ann@x.com") None (Some "up_2").

(** An image upload for gallery g1. *)
Definition upload_c : ImageForm :=
  mkImageForm false None (Some "c.jpg") (Some "third") (Some "g1") (Some "up_1").

(** An image upload with a short description and the url of image 1. *)
Definition short_and_taken : ImageForm :=
  mkImageForm false None (Some "a.jpg") (Some "x") (Some "g1") (Some "up_1").



(** A signup without a password. *)
Definition signup_without_password : UserForm :=
  mkUserForm false None (Some "Bob") (Some "bob@x.com") None (Some "up_2").

(** What lets a user update through to the store: the parse, the name and
    email checks, a non-empty table, no other user with the name or the
    email, a slug and the temporary upload on disk when a file comes, a
    password that passes its check when one comes, a row that clashes with
    no other, a store that answers and a fresh response object. *)
Definition update_let_through (env : Env) (ID : Z) (rq : UserForm) (w : World)
    (slug : string) : Prop :=
  uf_error rq = false ∧
  checkRange env (uf_name rq) (STRING_MIN env) (STRING_MAX env) = true ∧
  checkEmail env (uf_email rq) = true ∧
  users w ≠ [] ∧
  no_user_collision rq (Some ID) (users w) ∧
  (truthy (uf_upload rq) = true →
   getName env (uf_name rq) = Some slug ∧ user_upload_path env rq ∈ disk w) ∧
  (truthy (uf_password rq) = true → checkPassword env (uf_password rq) = true) ∧
  update_accepted usr_id user_clash ID (updated_user env ID rq w slug) (users w) ∧
  db_read_fails env = false ∧
  db_write_fails env = false ∧
  res w = None.

(** A request for user 9, whom the store does not know. *)
Definition rename_user_9 : UserForm :=
  mkUserForm false None (Some "Zoe") (Some "zoe@x.com") None None.

(** * Properties *)

(** ** Composition of stable computations *)

Section Stable.

Context (R : relation World) `{!PreOrder R}.

Lemma stable_ret {A} (a : A) : stable R (ret a).
Proof. intros w. reflexivity. Qed.

Lemma stable_throw {A} : stable R (@throw A).
Proof. intros w. reflexivity. Qed.

Lemma stable_bind {A B} (m : M A) (k : A → M B) :
  stable R m → (∀ a, stable R (k a)) → stable R (bind m k).
Proof.
  intros Hm Hk w. specialize (Hm w). unfold run, bind in *.
  destruct (m w) as [[a|] w1]; simpl in *; [|done].
  etransitivity; [exact Hm|apply Hk].
Qed.

Lemma stable_bind_never {A B} (m : M A) (k : A → M B) :
  never_done m → stable R m → stable R (bind m k).
Proof.
  intros Hn Hm w. specialize (Hm w). specialize (Hn w). unfold run, bind in *.
  destruct (m w) as [[a|] w1]; simpl in *; done.
Qed.

Lemma stable_try_catch (body handler : M unit) :
  stable R body → stable R handler → stable R (try_catch body handler).
Proof.
  intros Hb Hh w. specialize (Hb w). unfold run, try_catch in *.
  destruct (body w) as [[a|] w1]; simpl in *; [done|].
  etransitivity; [exact Hb|apply Hh].
Qed.

Lemma stable_for_each {A} (f : A → M unit) (xs : list A) :
  (∀ x, stable R (f x)) → stable R (for_each f xs).
Proof.
  intros Hf. induction xs as [|x xs IH]; simpl.
  - apply stable_ret.
  - apply stable_bind; [apply Hf|intros _; exact IH].
Qed.

End Stable.

(** Splits a goal [stable R m] along the structure of [m]; what is left
    are the calls of the primitives. *)
Ltac stable_step :=
  first
    [ apply stable_ret; solve [apply _]
    | apply stable_throw; solve [apply _]
    | apply stable_try_catch; [solve [apply _] | |]
    | apply stable_for_each; [solve [apply _] | intros ?]
    | apply stable_bind; [solve [apply _] | | intros ?]
    | match goal with
      | |- stable _ (if ?b then _ else _) => destruct b
      | |- stable _ (match ?x with _ => _ end) => destruct x
      end ].

Ltac stable_struct := repeat stable_step.

Ltac unfold_helpers :=
  unfold checkImageData, checkImageUnique, setImages, checkUserData,
    checkUserPassword, checkUserUnique, UserCtrl_setImage.

Ltac unfold_prims :=
  unfold run, respond, fs_unlink, middlewares_setImage, js_unbound, throw,
    getName_call, bcrypt_hash_call,
    Image_findAll, Image_findAll_where_gallery, Image_findByPk,
    Image_create, Image_update, Image_destroy,
    User_findAll, User_findByPk, User_create, User_update, User_destroy.

(** A primitive call against a relation that [tac] can establish once the
    call is unfolded and its cases are split. *)
Ltac stable_prim tac :=
  let w := fresh "w" in
  intros w; unfold_prims; repeat case_match; simpl; tac.

(** ** The table a handler does not work on *)

Global Instance users_untouched_preorder : PreOrder users_untouched.
Proof.
  split.
  - intros w. by split.
  - intros w1 w2 w3 [? ?] [? ?]. split; congruence.
Qed.

Global Instance images_untouched_preorder : PreOrder images_untouched.
Proof.
  split.
  - intros w. by split.
  - intros w1 w2 w3 [? ?] [? ?]. split; congruence.
Qed.

(** ** Deleting a user *)

Global Instance no_fs_preorder : PreOrder no_fs.
Proof.
  split.
  - intros w. by split.
  - intros w1 w2 w3 [? ?] [? ?]. split; congruence.
Qed.

Lemma filter_is_fs_snoc (l : list Event) (e : Event) :
  is_fs e = false → filter is_fs (l ++ [e]) = filter is_fs l.
Proof.
  intros He. rewrite filter_app. simpl.
  rewrite filter_cons_False, filter_nil, app_nil_r; [done|].
  destruct (is_fs e); [done|intros []].
Qed.

Lemma head_filter_after_destroy {A} (f : A → Z) (ID : Z) (l : list A) :
  head (filter (λ x, f x = ID) (filter (λ x, f x ≠ ID) l)) = None.
Proof.
  induction l as [|x l IH]; [done|].
  rewrite (filter_cons (λ x, f x ≠ ID)).
  destruct (decide (f x ≠ ID)) as [Hne|_]; [|exact IH].
  rewrite filter_cons_False; [exact IH|]. intros ?. done.
Qed.

Lemma deleteUser_no_fs (env : Env) (ID : Z) : stable no_fs (deleteUser env ID).
Proof.
  unfold deleteUser.
  stable_struct;
    stable_prim ltac:(split; simpl; rewrite ?filter_is_fs_snoc; done).
Qed.

(** C10.  [deleteUser] works on the database only: it issues no file
    operation and every file on disk, the image of the deleted user among
    them, is still there; when the user exists and the store answers, the
    row is destroyed and the answer is 204. *)
Theorem deleteUser_database_only (env : Env) (ID : Z) (w : World) (u : UserRow) :
  head (filter (λ u, usr_id u = ID) (users w)) = Some u →
  db_read_fails env = false →
  db_write_fails env = false →
  res w = None →
  no_fs w (run (deleteUser env ID) w) ∧
  users (run (deleteUser env ID) w) = filter (λ u, usr_id u ≠ ID) (users w) ∧
  status <$> res (run (deleteUser env ID) w) = Some 204.
Proof.
  intros Hu Hr Hw Hres. split; [apply deleteUser_no_fs|].
  unfold deleteUser, run, try_catch, bind, User_findByPk.
  rewrite Hr, Hu. unfold User_destroy, respond. simpl.
  rewrite Hw. simpl. rewrite Hres. simpl. done.
Qed.

Lemma deleteUser_database_only_witness :
  head (filter (λ u, usr_id u = 1%Z) (users demo_world)) = Some ann ∧
  res demo_world = None ∧
  no_fs demo_world (run (deleteUser (demo_env false false) 1) demo_world) ∧
  users (run (deleteUser (demo_env false false) 1) demo_world)
    = filter (λ u, usr_id u ≠ 1%Z) (users demo_world) ∧
  status <$> res (run (deleteUser (demo_env false false) 1) demo_world) = Some 204.
Proof.
  split; [reflexivity|]. split; [reflexivity|].
  apply (deleteUser_database_only (demo_env false false) 1 demo_world ann);
    reflexivity.
Defined.

(** ** Deleting twice *)

Global Instance same_data_preorder : PreOrder same_data.
Proof.
  split.
  - intros w. by repeat split.
  - intros w1 w2 w3 (?&?&?&?&?) (?&?&?&?&?). repeat split; congruence.
Qed.

(** C5, amended.  With a store that answers: deleting an image whose file
    is on disk removes the row and the file (204), and a second delete is
    answered 404 and changes nothing; when the file is not on disk the
    unlink rejects, the answer is 400 and the row stays.  Deleting a user
    removes the row (204) and a second delete is answered 404. *)
Theorem delete_twice (env : Env) (ID : Z) (w : World) :
  db_read_fails env = false →
  db_write_fails env = false →
  res w = None →
  (∀ r, head (filter (λ r, img_id r = ID) (images w)) = Some r →
     let w1 := run (deleteImage env ID) w in
     let w2 := run (deleteImage env ID) (next_request w1) in
     if bool_decide (IMG_URL env +:+ img_url r ∈ disk w) then
       images w1 = filter (λ r, img_id r ≠ ID) (images w) ∧
       disk w1 = disk w ∖ {[IMG_URL env +:+ img_url r]} ∧
       status <$> res w1 = Some 204 ∧
       status <$> res w2 = Some 404 ∧ same_data w1 w2
     else
       status <$> res w1 = Some 400 ∧ same_data w w1) ∧
  (∀ u, head (filter (λ u, usr_id u = ID) (users w)) = Some u →
     let w1 := run (deleteUser env ID) w in
     let w2 := run (deleteUser env ID) (next_request w1) in
     users w1 = filter (λ u, usr_id u ≠ ID) (users w) ∧
     status <$> res w1 = Some 204 ∧
     status <$> res w2 = Some 404 ∧ same_data w1 w2).
Proof.
  intros Hr Hw Hres. split.
  - intros r Hrow. simpl.
    unfold deleteImage, run, try_catch, bind, Image_findByPk.
    rewrite Hr, Hrow. unfold fs_unlink. simpl.
    destruct (bool_decide (IMG_URL env +:+ img_url r ∈ disk w)); simpl.
    + unfold Image_destroy, respond. rewrite Hw. simpl. rewrite Hres. simpl.
      rewrite head_filter_after_destroy. simpl.
      by repeat split.
    + unfold respond. simpl. rewrite Hres. simpl. by repeat split.
  - intros u Hrow. simpl.
    unfold deleteUser, run, try_catch, bind, User_findByPk.
    rewrite Hr, Hrow. unfold User_destroy, respond. simpl.
    rewrite Hw. simpl. rewrite Hres. simpl.
    rewrite head_filter_after_destroy. simpl.
    by repeat split.
Qed.

Lemma delete_twice_witness :
  res demo_world = None ∧
  status <$> res (run (deleteImage (demo_env false false) 1) demo_world) = Some 204 ∧
  status <$> res (run (deleteImage (demo_env false false) 1)
                    (next_request (run (deleteImage (demo_env false false) 1) demo_world)))
    = Some 404 ∧
  status <$> res (run (deleteImage (demo_env false false) 1) world_missing_file)
    = Some 400.
Proof.
  split; [reflexivity|].
  destruct (delete_twice (demo_env false false) 1 demo_world
              eq_refl eq_refl eq_refl) as [Hi _].
  specialize (Hi (mkImage 1 "a.jpg" "first" "g1") eq_refl).
  destruct (delete_twice (demo_env false false) 1 world_missing_file
              eq_refl eq_refl eq_refl) as [Hm _].
  specialize (Hm (mkImage 1 "a.jpg" "first" "g1") eq_refl).
  split; [|split]; [apply Hi|apply Hi|apply Hm].
Defined.

(** C5, as stated, fails: the row of image 1 exists, its file is not on
    disk, and [deleteImage] answers 400 and keeps the row. *)
Lemma deleteImage_absent_file_rejected :
  head (filter (λ r, img_id r = 1%Z) (images world_missing_file))
    = Some (mkImage 1 "a.jpg" "first" "g1") ∧
  ("img/a.jpg" ∉ disk world_missing_file) ∧
  status <$> res (run (deleteImage (demo_env false false) 1) world_missing_file)
    = Some 400 ∧
  images (run (deleteImage (demo_env false false) 1) world_missing_file)
    = images world_missing_file.
Proof.
  split; [reflexivity|]. split; [apply not_elem_of_empty|].
  split; vm_compute; reflexivity.
Qed.

(** ** Updating an image with a new file *)

Global Instance mutations_are_preorder (e0 : Event) :
  PreOrder (mutations_are e0).
Proof.
  split.
  - intros w. exists []. rewrite app_nil_r. split; [done|].
    intros e He. by apply elem_of_nil in He.
  - intros w1 w2 w3 (l1 & Ht1 & Hl1) (l2 & Ht2 & Hl2).
    exists (l1 ++ l2). split; [rewrite Ht2, Ht1; by rewrite app_assoc|].
    intros e. rewrite filter_app, elem_of_app. intros [H|H]; auto.
Qed.



Lemma never_done_bind_l {A B} (m : M A) (k : A → M B) :
  never_done m → never_done (bind m k).
Proof.
  intros Hm w. specialize (Hm w). unfold bind.
  destruct (m w) as [[a|] w1]; simpl in *; done.
Qed.

Lemma never_done_bind_r {A B} (m : M A) (k : A → M B) :
  (∀ a, never_done (k a)) → never_done (bind m k).
Proof.
  intros Hk w. unfold bind.
  destruct (m w) as [[a|] w1]; simpl; [apply Hk|done].
Qed.

Lemma js_unbound_never (name : string) : never_done (js_unbound name).
Proof. intros w. done. Qed.

(** The branch of [updateImage] taken for a new file, from its first
    statement on: it unlinks and then fails on the unbound identifier. *)
Lemma unlink_then_unbound_never (p name : string) (k : string → M unit) :
  never_done (fs_unlink p ;; ext <- js_unbound name ;; k ext).
Proof.
  apply never_done_bind_r. intros _. apply never_done_bind_l, js_unbound_never.
Qed.




(** ** Pre- and postconditions *)

Lemma hoare_bind {A B} (P : World → Prop) (m : M A) (k : A → M B)
    (Qm : Outcome A → World → Prop) (Q : Outcome B → World → Prop) :
  hoare P m Qm →
  (∀ a, hoare (Qm (Done a)) (k a) Q) →
  (∀ w, Qm Thrown w → Q Thrown w) →
  hoare P (bind m k) Q.
Proof.
  intros Hm Hk Ht w HP. specialize (Hm w HP). unfold bind.
  destruct (m w) as [[a|] w1]; simpl in *.
  - by apply Hk.
  - by apply Ht.
Qed.

Lemma hoare_try_catch (P : World → Prop) (body handler : M unit)
    (Qb Q : Outcome unit → World → Prop) :
  hoare P body Qb →
  (∀ w, Qb (Done tt) w → Q (Done tt) w) →
  hoare (Qb Thrown) handler Q →
  hoare P (try_catch body handler) Q.
Proof.
  intros Hb Hd Hh w HP. specialize (Hb w HP). unfold try_catch.
  destruct (body w) as [[[]|] w1]; simpl in *.
  - by apply Hd.
  - by apply Hh.
Qed.

Lemma hoare_stable {A} (R : relation World) (m : M A)
    (P : World → Prop) (Q : Outcome A → World → Prop) :
  stable R m →
  (∀ w w' o, P w → R w w' → Q o w') →
  hoare P m Q.
Proof. intros Hs HQ w HP. eapply HQ; [exact HP|apply Hs]. Qed.

(** ** Responses and checks, step by step *)

Lemma respond_fresh (code : nat) (b : Json) (w : World) :
  res w = None → respond code b w = (Done tt, sent code b w).
Proof. intros H. unfold respond. by rewrite H. Qed.

Lemma respond_again (code : nat) (b : Json) (w : World) :
  res w ≠ None → respond code b w = (Thrown, w).
Proof. intros H. unfold respond. by destruct (res w). Qed.

Lemma checkImageUnique_pass (url : jsstring) (rows : list ImageRow) (w : World) :
  (∀ r, r ∈ rows → Some (img_url r) ≠ url) →
  for_each (checkImageUnique url) rows w = (Done tt, w).
Proof.
  induction rows as [|x rows IH]; intros Hno; [done|].
  simpl. unfold bind, checkImageUnique at 1, js_eq.
  rewrite bool_decide_eq_false_2 by (apply Hno; left).
  simpl. apply IH. intros r Hr. apply Hno. by right.
Qed.

Lemma checkImageUnique_throws (url : jsstring) (rows : list ImageRow)
    (r : ImageRow) (w : World) :
  res w ≠ None → r ∈ rows → Some (img_url r) = url →
  for_each (checkImageUnique url) rows w = (Thrown, w).
Proof.
  intros Hres Hin Hurl.
  induction rows as [|x rows IH]; [by apply elem_of_nil in Hin|].
  simpl. unfold bind, checkImageUnique at 1, js_eq.
  case_bool_decide as Hx.
  - by rewrite respond_again.
  - simpl. apply IH. apply elem_of_cons in Hin as [->|Hin]; [|done].
    by destruct Hx.
Qed.

Lemma filter_none {A} (P : A → Prop) `{!∀ x, Decision (P x)} (l : list A) :
  (∀ x, x ∈ l → ¬ P x) → filter P l = [].
Proof.
  induction l as [|x l IH]; intros Hno; [done|].
  rewrite filter_cons_False by (apply Hno; left).
  apply IH. intros y Hy. apply Hno. by right.
Qed.

Lemma bind_done {A B} (m : M A) (k : A → M B) (w w1 : World) (a : A) :
  m w = (Done a, w1) → bind m k w = k a w1.
Proof. intros E. unfold bind. by rewrite E. Qed.

(** ** The first response is the one the client gets *)

Global Instance first_response_kept_preorder : PreOrder first_response_kept.
Proof.
  split.
  - intros w r Hr. exact Hr.
  - intros w1 w2 w3 H1 H2 r Hr. apply H2, H1, Hr.
Qed.

Ltac keeps_response :=
  stable_struct;
  stable_prim ltac:(intros ? ?; simpl in *; congruence).

Lemma answered_kept {A} (code : nat) (m : M A) (Q : Outcome A → World → Prop) :
  stable first_response_kept m →
  (∀ o w, answered code w → Q o w) →
  hoare (answered code) m Q.
Proof.
  intros Hs HQ. apply (hoare_stable first_response_kept); [done|].
  intros w w' o Hw HR. apply HQ. unfold answered in *.
  destruct (res w) as [r|] eqn:E; [|done].
  by rewrite (HR r E).
Qed.

(** A url check that meets a row with the candidate url leaves the
    request answered 403, whatever the checks before it answered. *)
Lemma checkImageUnique_collision (url : jsstring) (rows : list ImageRow)
    (r : ImageRow) (w : World) :
  r ∈ rows →
  Some (img_url r) = url →
  unanswered_or_403 w →
  answered 403 (run (for_each (checkImageUnique url) rows) w).
Proof.
  intros Hin Hurl. revert w.
  induction rows as [|x rows IH]; intros w Hw; [by apply elem_of_nil in Hin|].
  simpl. unfold run, bind.
  destruct (checkImageUnique url x w) as [[[]|] w1] eqn:E; simpl.
  - apply elem_of_cons in Hin as [<-|Hin].
    + (* the row itself: the check has just answered *)
      unfold checkImageUnique, js_eq in E. rewrite bool_decide_eq_true_2 in E by done.
      unfold respond in E. destruct (res w) eqn:Er; [done|].
      injection E as <-.
      eapply (answered_kept 403 (for_each (checkImageUnique url) rows)
                (λ _ w', answered 403 w')); [|done|done].
      apply stable_for_each; [apply _|]. intros y.
      unfold checkImageUnique. keeps_response.
    + apply IH; [done|].
      unfold checkImageUnique in E. destruct (js_eq _ _).
      * unfold respond in E. destruct (res w) eqn:Er; [done|].
        injection E as <-. by right.
      * injection E as <-. done.
  - (* the check threw: a response had been sent before, and it was a 403 *)
    unfold checkImageUnique in E. destruct (js_eq _ _); [|done].
    unfold respond in E. destruct (res w) eqn:Er; [|done].
    injection E as <-. destruct Hw as [Hw|Hw]; [congruence|done].
Qed.

Section SameGalleryCollision.

Context (env : Env) (rq : ImageForm) (w0 : World) (r : ImageRow).
Hypothesis Hread : db_read_fails env = false.
Hypothesis Hrow : r ∈ images w0.
Hypothesis Hgallery : Some (img_gallery r) = if_gallery rq.
Hypothesis Hurl : Some (img_url r) = if_url rq.

Lemma checkImageData_checked :
  hoare (λ w, res w = None ∧ images w = images w0)
        (checkImageData env (if_description rq)) (checked w0).
Proof.
  intros w [Hres Himg]. unfold checkImageData.
  destruct (checkRange _ _ _ _); simpl.
  - repeat split; [done|by left].
  - unfold respond. rewrite Hres. simpl. repeat split; [done|by right].
Qed.

Lemma findAll_loaded :
  hoare (checked w0 (Done tt))
        (Image_findAll_where_gallery env (if_gallery rq)) (loaded rq w0).
Proof.
  intros w (_ & Himg & Hres). unfold Image_findAll_where_gallery.
  rewrite Hread, Himg. rewrite <- Hgallery. simpl.
  eexists. split; [done|]. split; [|done].
  apply list_filter_iff. intros x. rewrite <- Hgallery. split; congruence.
Qed.

Lemma row_loaded : r ∈ filter (λ x, Some (img_gallery x) = if_gallery rq) (images w0).
Proof. apply list_elem_of_filter. by split. Qed.

Lemma createImage_same_gallery_403 :
  hoare (λ w, res w = None ∧ images w = images w0)
        (createImage env rq) (λ _ w, if_error rq = false → answered 403 w).
Proof.
  unfold createImage. destruct (if_error rq); [by intros w _ ?|].
  apply hoare_try_catch with (Qb := λ _ w, answered 403 w); [|done|].
  - eapply hoare_bind; [apply checkImageData_checked| |by intros ? (?&_)].
    intros [].
    eapply hoare_bind; [apply findAll_loaded| |by intros ? (?&?&_)].
    intros imgs.
    eapply hoare_bind with (Qm := λ _ w, answered 403 w); [| |done].
    + intros w (? & [= <-] & -> & Hres).
      eapply checkImageUnique_collision; [apply row_loaded|done|done].
    + intros _. apply answered_kept; [|done]. unfold setImages. keeps_response.
  - apply answered_kept; [|by intros]. keeps_response.
Qed.

Lemma updateImage_same_gallery_403 (ID : Z) :
  img_id r ≠ ID →
  hoare (λ w, res w = None ∧ images w = images w0)
        (updateImage env ID rq) (λ _ w, if_error rq = false → answered 403 w).
Proof.
  intros Hid. unfold updateImage. destruct (if_error rq); [by intros w _ ?|].
  apply hoare_try_catch with (Qb := λ _ w, answered 403 w); [|done|].
  - eapply hoare_bind; [apply checkImageData_checked| |by intros ? (?&_)].
    intros [].
    eapply hoare_bind; [apply findAll_loaded| |by intros ? (?&?&_)].
    intros imgs.
    destruct imgs as [|x imgs].
    { intros w (imgs0 & [= <-] & E & _). pose proof row_loaded as Hin.
      rewrite <- E in Hin. by apply elem_of_nil in Hin. }
    eapply hoare_bind with (Qm := λ _ w, answered 403 w); [| |done].
    + intros w (imgs0 & [= <-] & E & Hres).
      eapply checkImageUnique_collision; [|done|done].
      apply list_elem_of_filter. split; [done|]. rewrite E. apply row_loaded.
    + intros _. apply answered_kept; [|done]. unfold setImages. keeps_response.
  - apply answered_kept; [|by intros]. keeps_response.
Qed.

End SameGalleryCollision.

(** *** The store keeps the table within its schema *)

Global Instance keeps_preorder (P : World → Prop) : PreOrder (keeps P).
Proof.
  split.
  - by intros w H.
  - intros w1 w2 w3 H12 H23 H. apply H23, H12, H.
Qed.

Lemma update_where_none {A} (key : A → Z) (ID : Z) (set : A → A) (l : list A) :
  (∀ r, r ∈ l → key r ≠ ID) → update_where key ID set l = l.
Proof.
  intros Hno. unfold update_where.
  transitivity (id <$> l); [|apply list_fmap_id].
  apply list_fmap_ext. intros i r Hr.
  rewrite bool_decide_eq_false_2; [done|].
  apply Hno. by eapply list_elem_of_lookup_2.
Qed.

Lemma update_accepted_spec {A} (key : A → Z) (clash : relation A)
    (ID : Z) (set : A → A) (l : list A) :
  update_accepted key clash ID set l ↔
  ∀ u v, u ∈ l → key u = ID → v ∈ l → key v ≠ ID → ¬ clash (set u) v.
Proof.
  unfold update_accepted. rewrite Forall_forall. split.
  - intros H u v Hu Hk Hv Hkv. specialize (H u Hu Hk).
    rewrite Forall_forall in H. by apply H.
  - intros H u Hu Hk. apply Forall_forall. intros v Hv Hkv. by apply H.
Qed.

Lemma NoDup_fmap_snoc {A B} (f : A → B) (l : list A) (x : A) :
  NoDup (f <$> l) → (∀ y, y ∈ l → f y ≠ f x) → NoDup (f <$> l ++ [x]).
Proof.
  intros Hl Hx. rewrite fmap_app. apply NoDup_app.
  split; [done|]. split; [|apply NoDup_singleton].
  intros z Hz Hin. apply list_elem_of_singleton in Hin as ->.
  apply list_elem_of_fmap in Hz as (y & Heq & Hy).
  apply (Hx y Hy). by symmetry.
Qed.

Lemma NoDup_fmap_filter {A B} (f : A → B) (P : A → Prop)
    `{!∀ x, Decision (P x)} (l : list A) :
  NoDup (f <$> l) → NoDup (f <$> filter P l).
Proof.
  intros Hl. eapply sublist_NoDup; [exact Hl|].
  apply fmap_sublist, sublist_filter.
Qed.

(** An accepted UPDATE leaves a column without duplicates when it had none. *)
Lemma NoDup_update_where {A B} (key : A → Z) (f : A → B) (ID : Z)
    (set : A → A) (l : list A) :
  NoDup (key <$> l) → NoDup (f <$> l) →
  (∀ u v, u ∈ l → key u = ID → v ∈ l → key v ≠ ID → f (set u) ≠ f v) →
  NoDup (f <$> update_where key ID set l).
Proof.
  induction l as [|x l IH]; intros Hk Hf Hacc; [constructor|].
  rewrite fmap_cons in Hk. rewrite fmap_cons in Hf.
  apply NoDup_cons in Hk as [Hkx Hk]. apply NoDup_cons in Hf as [Hfx Hf].
  unfold update_where. rewrite fmap_cons. fold (update_where key ID set l).
  rewrite fmap_cons.
  case_bool_decide as Hx.
  - rewrite update_where_none.
    2:{ intros r Hr Heq. apply Hkx. rewrite Hx, <- Heq.
        by apply list_elem_of_fmap_2. }
    apply NoDup_cons. split; [|done].
    intros Hin. apply list_elem_of_fmap in Hin as (v & Heq & Hv).
    apply (Hacc x v); [left|done|by right| |done].
    intros Heq'. apply Hkx. rewrite Hx, <- Heq'. by apply list_elem_of_fmap_2.
  - apply NoDup_cons. split.
    + intros Hin. apply list_elem_of_fmap in Hin as (v' & Heq & Hv').
      unfold update_where in Hv'.
      apply list_elem_of_fmap in Hv' as (v & -> & Hv).
      case_bool_decide as Hvk.
      * apply (Hacc v x); [by right|done|left|done|by symmetry].
      * apply Hfx. rewrite Heq. by apply list_elem_of_fmap_2.
    + apply IH; [done|done|].
      intros u v Hu Hku Hv Hkv. apply Hacc; [by right|done|by right|done].
Qed.

Lemma Image_create_wf (env : Env) (id : option Z) (url description gallery : jsstring) :
  stable (keeps images_wf) (Image_create env id url description gallery).
Proof.
  intros w. unfold run, Image_create.
  repeat case_match; simpl; try by intros ?.
  match goal with H : bool_decide _ = false |- _ =>
    apply bool_decide_eq_false in H; rename H into Hfree end.
  intros [Hid Hurl].
  split; simpl; (apply NoDup_fmap_snoc; [done|]);
    intros y Hy Heq; apply Hfree, Exists_exists; exists y;
    (split; [done|]); unfold image_clash; simpl; auto.
Qed.

Lemma Image_update_wf (env : Env) (id : option Z) (url description gallery : jsstring)
    (ID : Z) :
  stable (keeps images_wf) (Image_update env id url description gallery ID).
Proof.
  intros w. unfold run, Image_update.
  repeat case_match; simpl; try by intros ?.
  match goal with H : bool_decide _ = true |- _ =>
    apply bool_decide_eq_true in H; rename H into Hacc end.
  rewrite update_accepted_spec in Hacc.
  intros [Hid Hurl].
  split; simpl; (apply NoDup_update_where; [done|done|]);
    intros u v Hu Hku Hv Hkv Heq; apply (Hacc u v Hu Hku Hv Hkv);
    unfold image_clash; auto.
Qed.

Lemma Image_destroy_wf (env : Env) (ID : Z) :
  stable (keeps images_wf) (Image_destroy env ID).
Proof.
  intros w. unfold run, Image_destroy.
  repeat case_match; simpl; try by intros ?.
  intros [Hid Hurl]. split; simpl; by apply NoDup_fmap_filter.
Qed.

Ltac images_wf_prims :=
  first [ apply Image_create_wf
        | apply Image_update_wf
        | apply Image_destroy_wf
        | stable_prim ltac:(by intros ?) ].

Lemma image_handlers_keep_schema (env : Env) (ID : Z) (rq : ImageForm) :
  stable (keeps images_wf) (createImage env rq) ∧
  stable (keeps images_wf) (updateImage env ID rq) ∧
  stable (keeps images_wf) (deleteImage env ID).
Proof.
  split; [|split].
  - unfold createImage. unfold_helpers. stable_struct; images_wf_prims.
  - unfold updateImage. unfold_helpers. stable_struct; images_wf_prims.
  - unfold deleteImage. stable_struct; images_wf_prims.
Qed.

(** *** What the store refuses *)

Global Instance quiet_preorder : PreOrder quiet.
Proof.
  split.
  - intros w. by split.
  - intros w1 w2 w3 [? ?] [? ?]. split; congruence.
Qed.

Lemma Image_create_taken (env : Env) (id : option Z) (url description gallery : jsstring)
    (w : World) (r : ImageRow) :
  r ∈ images w → Some (img_url r) = url →
  ∃ w', Image_create env id url description gallery w = (Thrown, w') ∧ quiet w w'.
Proof.
  intros Hr Hurl. unfold Image_create.
  destruct url as [u|], description as [d|], gallery as [g|];
    try (eexists; split; [reflexivity|by split]).
  destruct (db_write_fails env); [eexists; split; [reflexivity|by split]|].
  rewrite bool_decide_eq_true_2; [eexists; split; [reflexivity|by split]|].
  apply Exists_exists. exists r. split; [done|].
  right. simpl. congruence.
Qed.

Lemma Image_update_taken (env : Env) (id : option Z) (url description gallery : jsstring)
    (ID : Z) (w : World) (r0 r : ImageRow) :
  r0 ∈ images w → img_id r0 = ID →
  r ∈ images w → img_id r ≠ ID → Some (img_url r) = url →
  ∃ w', Image_update env id url description gallery ID w = (Thrown, w') ∧ quiet w w'.
Proof.
  intros Hr0 Hid0 Hr Hid Hurl. unfold Image_update.
  destruct (db_write_fails env); [eexists; split; [reflexivity|by split]|].
  rewrite bool_decide_eq_false_2; [eexists; split; [reflexivity|by split]|].
  rewrite update_accepted_spec. intros Hacc.
  apply (Hacc r0 r Hr0 Hid0 Hr Hid).
  right. simpl. rewrite <- Hurl. done.
Qed.

(** A file part that sends nothing and touches no row, then a store call
    that is refused: the whole throws. *)
Lemma refused_after (m c : M unit) (k : M unit) (w : World) :
  stable quiet m →
  (∀ w', quiet w w' → ∃ w'', c w' = (Thrown, w'') ∧ quiet w' w'') →
  ∃ w2, (m ;; c ;; k) w = (Thrown, w2) ∧ quiet w w2.
Proof.
  intros Hm Hc. specialize (Hm w). unfold run in Hm. unfold bind.
  destruct (m w) as [[[]|] w1]; simpl in *.
  - destruct (Hc w1 Hm) as (w2 & -> & Hq). exists w2.
    split; [done|]. by etransitivity.
  - by exists w1.
Qed.

Ltac quiet_prims := stable_prim ltac:(by split).

(** *** What the check compares *)

Global Instance no_403_preorder : PreOrder no_403.
Proof.
  split.
  - intros w H. exact H.
  - intros w1 w2 w3 H12 H23 H. apply H23, H12, H.
Qed.

Ltac no_403_prims :=
  stable_prim ltac:(first [ by intros ?
                          | intros _; unfold answered; simpl; discriminate ]).

Section ImageChecks.

Context (env : Env) (rq : ImageForm).
Hypothesis Herr : if_error rq = false.
Hypothesis Hread : db_read_fails env = false.

(** The description check fails: the 403 it sends is the answer. *)
Lemma createImage_bad_description (w : World) :
  bad_description env rq → res w = None →
  answered 403 (run (createImage env rq) w).
Proof.
  intros Hbad Hres. revert w Hres.
  change (hoare (λ w, res w = None) (createImage env rq) (λ _ w, answered 403 w)).
  unfold createImage. rewrite Herr.
  apply hoare_try_catch with (Qb := λ _ w, answered 403 w); [|done|].
  - eapply hoare_bind with (Qm := λ _ w, answered 403 w); [| |done].
    + intros w Hres. unfold checkImageData. rewrite Hbad.
      by rewrite respond_fresh.
    + intros _. apply answered_kept; [|done].
      unfold_helpers. keeps_response.
  - apply answered_kept; [|by intros]. keeps_response.
Qed.

Lemma updateImage_bad_description (ID : Z) (w : World) :
  bad_description env rq → res w = None →
  answered 403 (run (updateImage env ID rq) w).
Proof.
  intros Hbad Hres. revert w Hres.
  change (hoare (λ w, res w = None) (updateImage env ID rq) (λ _ w, answered 403 w)).
  unfold updateImage. rewrite Herr.
  apply hoare_try_catch with (Qb := λ _ w, answered 403 w); [|done|].
  - eapply hoare_bind with (Qm := λ _ w, answered 403 w); [| |done].
    + intros w Hres. unfold checkImageData. rewrite Hbad.
      by rewrite respond_fresh.
    + intros _. apply answered_kept; [|done].
      unfold_helpers. keeps_response.
  - apply answered_kept; [|by intros]. keeps_response.
Qed.

Hypothesis Hrange : ¬ bad_description env rq.

(** With the description in range and no image of the gallery under the
    url, the checks send nothing and the handler goes on from the read. *)
Lemma createImage_checks_pass (k : M unit) (w : World) :
  ¬ url_taken_in_gallery rq None (images w) →
  (checkImageData env (if_description rq) ;;
   imgs <- Image_findAll_where_gallery env (if_gallery rq) ;;
   for_each (checkImageUnique (if_url rq)) imgs ;; k) w
  = match if_gallery rq with
    | Some _ => k (emit (DbRead Images) w)
    | None => (Thrown, emit (DbRead Images) w)
    end.
Proof.
  intros Hfree. unfold bind at 1 2, checkImageData, Image_findAll_where_gallery.
  apply not_false_is_true in Hrange. rewrite Hrange, Hread. simpl.
  destruct (if_gallery rq) as [g|] eqn:Eg; [|done]. simpl.
  rewrite (bind_done _ (λ _, k) _ (emit (DbRead Images) w) tt); [done|].
  apply checkImageUnique_pass.
  intros r Hin Hurl. apply list_elem_of_filter in Hin as [Hg Hin].
  apply Hfree, Exists_exists. exists r. rewrite Eg, Hg. by repeat split.
Qed.

Lemma updateImage_checks_pass (ID : Z) (k : list ImageRow → M unit) (w : World) :
  ¬ url_taken_in_gallery rq (Some ID) (images w) →
  (checkImageData env (if_description rq) ;;
   imgs <- Image_findAll_where_gallery env (if_gallery rq) ;;
   match imgs with
   | [] => respond 404 (message (JEnv "IMAGES_NOT_FOUND"))
   | _ => for_each (checkImageUnique (if_url rq))
                   (filter (λ r, img_id r ≠ ID) imgs) ;;
          k imgs
   end) w
  = match if_gallery rq with
    | Some g =>
        match filter (λ r, img_gallery r = g) (images w) with
        | [] => respond 404 (message (JEnv "IMAGES_NOT_FOUND"))
                  (emit (DbRead Images) w)
        | imgs => k imgs (emit (DbRead Images) w)
        end
    | None => (Thrown, emit (DbRead Images) w)
    end.
Proof.
  intros Hfree. unfold bind at 1 2, checkImageData, Image_findAll_where_gallery.
  apply not_false_is_true in Hrange. rewrite Hrange, Hread. simpl.
  destruct (if_gallery rq) as [g|] eqn:Eg; [|done]. simpl.
  assert (Hsub : ∀ r, r ∈ filter (λ r, img_gallery r = g) (images w) →
                      img_gallery r = g ∧ r ∈ images w).
  { intros r Hin. by apply list_elem_of_filter in Hin. }
  destruct (filter (λ r, img_gallery r = g) (images w)) as [|x l]; [done|].
  rewrite (bind_done _ (λ _, k (x :: l)) _ (emit (DbRead Images) w) tt); [done|].
  apply checkImageUnique_pass.
  intros r Hin Hurl. apply list_elem_of_filter in Hin as [Hid Hin].
  destruct (Hsub r Hin) as [Hg Hw].
  apply Hfree, Exists_exists. exists r. rewrite Eg, Hg.
  split; [done|]. split; [|done]. intros [= Heq]. by apply Hid.
Qed.

Lemma createImage_not_403 (w : World) :
  res w = None →
  ¬ url_taken_in_gallery rq None (images w) →
  ¬ answered 403 (run (createImage env rq) w).
Proof.
  intros Hres Hfree. unfold createImage. rewrite Herr.
  unfold run, try_catch. rewrite createImage_checks_pass by done.
  assert (H1 : ¬ answered 403 (emit (DbRead Images) w)).
  { unfold answered. simpl. by rewrite Hres. }
  destruct (if_gallery rq).
  - match goal with
    | |- ¬ answered 403 (match ?m ?w1 with _ => _ end).2 =>
        refine (stable_try_catch no_403 m
                  (respond 400 (message (JEnv "IMAGE_NOT_CREATED"))) _ _ w1 H1)
    end.
    + unfold_helpers. stable_struct; no_403_prims.
    + no_403_prims.
  - rewrite respond_fresh by done. unfold answered. simpl. discriminate.
Qed.

Lemma updateImage_not_403 (ID : Z) (w : World) :
  res w = None →
  ¬ url_taken_in_gallery rq (Some ID) (images w) →
  ¬ answered 403 (run (updateImage env ID rq) w).
Proof.
  intros Hres Hfree. unfold updateImage. rewrite Herr.
  unfold run, try_catch. rewrite updateImage_checks_pass by done.
  assert (H1 : ¬ answered 403 (emit (DbRead Images) w)).
  { unfold answered. simpl. by rewrite Hres. }
  destruct (if_gallery rq) as [g|].
  - destruct (filter (λ r, img_gallery r = g) (images w)) as [|x l].
    + rewrite respond_fresh by done. unfold answered. simpl. discriminate.
    + match goal with
      | |- ¬ answered 403 (match ?m ?w1 with _ => _ end).2 =>
          refine (stable_try_catch no_403 m
                    (respond 400 (message (JEnv "IMAGE_NOT_UPDATED"))) _ _ w1 H1)
      end.
      * unfold_helpers. stable_struct; no_403_prims.
      * no_403_prims.
  - rewrite respond_fresh by done. unfold answered. simpl. discriminate.
Qed.

(** The url is free in the gallery and taken elsewhere: the store refuses
    the row and the answer is 400. *)
Lemma createImage_taken_elsewhere (w : World) (r : ImageRow) :
  res w = None →
  ¬ url_taken_in_gallery rq None (images w) →
  r ∈ images w → Some (img_url r) = if_url rq →
  answered 400 (run (createImage env rq) w) ∧
  images (run (createImage env rq) w) = images w.
Proof.
  intros Hres Hfree Hr Hurl. unfold createImage. rewrite Herr.
  unfold run, try_catch. rewrite createImage_checks_pass by done.
  destruct (if_gallery rq).
  - match goal with
    | |- context [bind ?m (λ _, bind ?c (λ _, ?k)) ?w1] =>
        destruct (refused_after m c k w1) as (w2 & -> & Hq2 & Hi2)
    end.
    + unfold_helpers. stable_struct; quiet_prims.
    + intros w' [Hq Hi]. apply (Image_create_taken _ _ _ _ _ _ r); [|done].
      by rewrite Hi.
    + rewrite respond_fresh by (by rewrite Hq2). done.
  - rewrite respond_fresh by done. done.
Qed.

Lemma updateImage_taken_elsewhere (ID : Z) (w : World) (r r0 r1 : ImageRow) :
  res w = None →
  ¬ url_taken_in_gallery rq (Some ID) (images w) →
  r ∈ images w → img_id r ≠ ID → Some (img_url r) = if_url rq →
  r0 ∈ images w → img_id r0 = ID →
  r1 ∈ images w → Some (img_gallery r1) = if_gallery rq →
  answered 400 (run (updateImage env ID rq) w) ∧
  images (run (updateImage env ID rq) w) = images w.
Proof.
  intros Hres Hfree Hr Hid Hurl Hr0 Hid0 Hr1 Hg1. unfold updateImage. rewrite Herr.
  unfold run, try_catch. rewrite updateImage_checks_pass by done.
  rewrite <- Hg1.
  assert (Hin : r1 ∈ filter (λ x, img_gallery x = img_gallery r1) (images w)).
  { apply list_elem_of_filter. by split. }
  destruct (filter (λ x, img_gallery x = img_gallery r1) (images w)) as [|x l];
    [by apply elem_of_nil in Hin|].
  cbv zeta.
  match goal with
  | |- context [bind ?m (λ _, bind ?c (λ _, ?k)) ?w1] =>
      destruct (refused_after m c k w1) as (w2 & -> & Hq2 & Hi2)
  end.
  - unfold_helpers. stable_struct; quiet_prims.
  - intros w' [Hq Hi].
    apply (Image_update_taken _ _ _ _ _ _ _ r0 r); by rewrite ?Hi.
  - rewrite respond_fresh by (by rewrite Hq2). done.
Qed.

End ImageChecks.

(** C7, amended.  At all times the url of an image is unique across all
    images: the table starts within its schema (no two rows with one id,
    none with one url) and the three image handlers keep it there, for the
    store refuses a row whose url another row has.  The uniqueness check
    of image create and update rejects (403) a candidate url exactly when
    an image of the gallery named in the request has it (on update: an
    image other than the updated one); a url that only images of other
    galleries have passes the check, the store refuses the write and the
    answer is 400. *)
Theorem image_url_unique_checked_within_gallery
    (env : Env) (ID : Z) (rq : ImageForm) (w : World) :
  (images_wf w →
   images_wf (run (createImage env rq) w) ∧
   images_wf (run (updateImage env ID rq) w) ∧
   images_wf (run (deleteImage env ID) w)) ∧
  (if_error rq = false → db_read_fails env = false → res w = None →
   (answered 403 (run (createImage env rq) w) ↔
      bad_description env rq ∨ url_taken_in_gallery rq None (images w)) ∧
   (answered 403 (run (updateImage env ID rq) w) ↔
      bad_description env rq ∨ url_taken_in_gallery rq (Some ID) (images w)) ∧
   (¬ bad_description env rq →
    ∀ r, r ∈ images w → Some (img_url r) = if_url rq →
      (¬ url_taken_in_gallery rq None (images w) →
       answered 400 (run (createImage env rq) w) ∧
       images (run (createImage env rq) w) = images w) ∧
      (¬ url_taken_in_gallery rq (Some ID) (images w) →
       img_id r ≠ ID →
       (∃ r0, r0 ∈ images w ∧ img_id r0 = ID) →
       (∃ r1, r1 ∈ images w ∧ Some (img_gallery r1) = if_gallery rq) →
       answered 400 (run (updateImage env ID rq) w) ∧
       images (run (updateImage env ID rq) w) = images w))).
Proof.
  split.
  { intros Hwf. destruct (image_handlers_keep_schema env ID rq) as (Hc & Hu & Hd).
    split; [by apply Hc|]. split; [by apply Hu|by apply Hd]. }
  intros Herr Hread Hres. split; [|split].
  - split.
    + intros H403.
      destruct (decide (bad_description env rq)) as [|Hrange]; [by left|].
      destruct (decide (url_taken_in_gallery rq None (images w))) as [|Hfree];
        [by right|].
      by destruct (createImage_not_403 env rq Herr Hread Hrange w Hres Hfree).
    + intros [Hbad|Htaken].
      * by apply createImage_bad_description.
      * apply Exists_exists in Htaken as (r & Hr & _ & Hg & Hu).
        by apply (createImage_same_gallery_403 env rq w r Hread Hr Hg Hu w).
  - split.
    + intros H403.
      destruct (decide (bad_description env rq)) as [|Hrange]; [by left|].
      destruct (decide (url_taken_in_gallery rq (Some ID) (images w))) as [|Hfree];
        [by right|].
      by destruct (updateImage_not_403 env rq Herr Hread Hrange ID w Hres Hfree).
    + intros [Hbad|Htaken].
      * by apply updateImage_bad_description.
      * apply Exists_exists in Htaken as (r & Hr & Hid & Hg & Hu).
        apply (updateImage_same_gallery_403 env rq w r Hread Hr Hg Hu ID); [|done|done].
        intros Heq. apply Hid. by rewrite Heq.
  - intros Hrange r Hr Hurl. split.
    + intros Hfree. by apply (createImage_taken_elsewhere env rq Herr Hread Hrange w r).
    + intros Hfree Hid (r0 & Hr0 & Hid0) (r1 & Hr1 & Hg1).
      by apply (updateImage_taken_elsewhere env rq Herr Hread Hrange ID w r r0 r1).
Qed.

Lemma image_url_unique_checked_within_gallery_witness :
  let env := demo_env false false in
  let w := world_two_galleries in
  images_wf w ∧
  res w = None ∧
  images_wf (run (createImage env same_url_other_gallery) w) ∧
  (answered 403 (run (createImage env same_url_other_gallery) w) ↔
     bad_description env same_url_other_gallery ∨
     url_taken_in_gallery same_url_other_gallery None (images w)) ∧
  answered 400 (run (updateImage env 2 same_url_other_gallery) w) ∧
  images (run (updateImage env 2 same_url_other_gallery) w) = images w.
Proof.
  cbv zeta.
  assert (Hwf : images_wf world_two_galleries).
  { split; apply (bool_decide_unpack _); vm_compute; exact I. }
  assert (Hrange : ¬ bad_description (demo_env false false) same_url_other_gallery).
  { unfold bad_description. discriminate. }
  assert (Hfree : ¬ url_taken_in_gallery same_url_other_gallery (Some 2%Z)
                      (images world_two_galleries)).
  { apply (bool_decide_eq_false_1 _). vm_compute. reflexivity. }
  destruct (image_url_unique_checked_within_gallery (demo_env false false) 2
              same_url_other_gallery world_two_galleries) as [Hinv Hcheck].
  destruct (Hinv Hwf) as (Hc & _).
  destruct (Hcheck eq_refl eq_refl eq_refl) as (Hc403 & _ & H400).
  destruct (H400 Hrange (mkImage 1 "a.jpg" "first" "g1")) as [_ Hu];
    [left|reflexivity|].
  split; [exact Hwf|]. split; [reflexivity|]. split; [exact Hc|].
  split; [exact Hc403|].
  apply Hu; [exact Hfree|discriminate| |].
  - exists (mkImage 2 "b.jpg" "second" "g2"). split; [right; left|reflexivity].
  - exists (mkImage 2 "b.jpg" "second" "g2"). split; [right; left|reflexivity].
Defined.

(** C7, as stated, fails: image 1 of gallery g1 has the url "a.jpg"; a
    create for gallery g2 with that url passes the check, is refused by the
    store and answered 400, not 403; so is an update of image 2 of gallery
    g2 to that url.  The same url sent for gallery g1 is answered 403. *)
Lemma url_of_other_gallery_not_rejected_by_check :
  let env := demo_env false false in
  let rq := same_url_other_gallery in
  let w := world_two_galleries in
  images w = [mkImage 1 "a.jpg" "first" "g1"; mkImage 2 "b.jpg" "second" "g2"] ∧
  if_url rq = Some "a.jpg" ∧ if_gallery rq = Some "g2" ∧
  res (run (createImage env rq) w)
    = Some (mkResponse 400 (message (JEnv "IMAGE_NOT_CREATED"))) ∧
  trace (run (createImage env rq) w) = [DbRead Images; DbCreate Images; Sent 400] ∧
  images (run (createImage env rq) w) = images w ∧
  res (run (updateImage env 2 rq) w)
    = Some (mkResponse 400 (message (JEnv "IMAGE_NOT_UPDATED"))) ∧
  images (run (updateImage env 2 rq) w) = images w ∧
  status <$> res (run (createImage env same_url_same_gallery) w) = Some 403.
Proof. cbv zeta. repeat split; vm_compute; reflexivity. Qed.

(** ** Updating without a new file *)

Lemma head_filter_unique {A} (f : A → Z) (l : list A) (x : A) :
  NoDup (f <$> l) → x ∈ l → head (filter (λ y, f y = f x) l) = Some x.
Proof.
  induction l as [|y l IH]; intros Hnd Hin; [by apply elem_of_nil in Hin|].
  rewrite fmap_cons in Hnd. apply NoDup_cons in Hnd as [Hy Hnd].
  apply elem_of_cons in Hin as [->|Hin].
  - by rewrite filter_cons_True.
  - rewrite filter_cons_False; [by apply IH|].
    intros Heq. apply Hy. rewrite Heq. by apply list_elem_of_fmap_2.
Qed.

(** The UPDATE that [updateUser] issues without a new file writes back to
    the row the image filename it has read from it; without an [id] key it
    leaves the id as well. *)
Lemma User_update_keeps_files (ID : Z) (id : option Z) (name email password : jsstring)
    (l : list UserRow) :
  NoDup (usr_id <$> l) →
  let l' := update_where usr_id ID
              (user_set id name email
                 (head (filter (λ u, usr_id u = ID) l) ≫= (λ u, Some (usr_image u)))
                 password) l in
  usr_image <$> l' = usr_image <$> l ∧
  (id = None →
   (λ u, (usr_id u, usr_image u)) <$> l' = (λ u, (usr_id u, usr_image u)) <$> l).
Proof.
  intros Hnd. cbv zeta. unfold update_where.
  assert (Himg : ∀ u, u ∈ l → usr_id u = ID →
            patch (head (filter (λ u, usr_id u = ID) l) ≫= (λ u, Some (usr_image u)))
              (usr_image u) = usr_image u).
  { intros u Hu <-. by rewrite (head_filter_unique usr_id l u Hnd). }
  split.
  - rewrite <- list_fmap_compose. apply list_fmap_ext. intros i u Hu. simpl.
    case_bool_decide as Hid; [|done]. simpl.
    apply Himg; [|done]. by eapply list_elem_of_lookup_2.
  - intros ->. rewrite <- list_fmap_compose. apply list_fmap_ext.
    intros i u Hu. simpl.
    case_bool_decide as Hid; [|done]. simpl. f_equal.
    apply Himg; [|done]. by eapply list_elem_of_lookup_2.
Qed.

Lemma same_users_files_kept (rq : UserForm) (w0 w : World) :
  users w = users w0 → user_files_kept rq w0 w.
Proof. intros Hu. unfold user_files_kept, user_files. by rewrite Hu. Qed.

Section UpdateUserWithoutFile.

Context (env : Env) (ID : Z) (rq : UserForm) (w0 : World).
Hypothesis Hup : truthy (uf_upload rq) = false.
Hypothesis Hnd : NoDup (usr_id <$> users w0).

(** From the password step on, with the filename [img] read from the row. *)
Lemma updateUser_tail_keeps_files (w : World) :
  users w = users w0 →
  let img := head (filter (λ u, usr_id u = ID) (users w0))
             ≫= (λ u, Some (usr_image u)) in
  user_files_kept rq w0
    (run (user <- (if truthy (uf_password rq) then
                     checkUserPassword env (uf_password rq) ;;
                     hash <- bcrypt_hash_call env (uf_password rq) 10 ;;
                     ret (uf_name rq, uf_email rq, img, Some hash)
                   else
                     ret (uf_name rq, uf_email rq, img, uf_password rq)) ;;
          let '(name, email, image, password) := user in
          User_update env (uf_id rq) name email image password ID ;;
          respond 200 (message (JEnv "USER_UPDATED"))) w).
Proof.
  intros Hw. simpl.
  unfold run, bind, checkUserPassword, bcrypt_hash_call, User_update, respond, ret.
  repeat case_match; simplify_eq/=;
    try (by apply same_users_files_kept);
    unfold user_files_kept, user_files; simpl; rewrite ?Hw;
    first [ by apply (User_update_keeps_files ID _ _ _ (Some _))
          | by apply User_update_keeps_files ].
Qed.

Lemma updateUser_keeps_files :
  hoare (λ w, users w = users w0) (updateUser env ID rq)
        (λ _ w, user_files_kept rq w0 w).
Proof.
  unfold updateUser. destruct (uf_error rq).
  { intros w Hw. by apply same_users_files_kept. }
  apply hoare_try_catch with (Qb := λ _ w, user_files_kept rq w0 w);
    [|done|].
  - eapply hoare_bind with (Qm := λ _ w, users w = users w0).
    + apply (hoare_stable same_data).
      * unfold_helpers. stable_struct. stable_prim ltac:(by repeat split).
      * intros w w' _ Hw (_ & Hu & _). congruence.
    + intros [].
      eapply hoare_bind
        with (Qm := λ o w, users w = users w0 ∧ ∀ us, o = Done us → us = users w0).
      * intros w Hw. unfold User_findAll.
        destruct (db_read_fails env); simpl; (split; [done|]); [done|].
        by intros us [= <-].
      * intros us. destruct us as [|u us].
        { intros w [Hw _]. apply same_users_files_kept. unfold respond.
          destruct (res w); simpl; by rewrite Hw. }
        eapply hoare_bind with (Qm := λ _ w, users w = users w0 ∧ u :: us = users w0).
        -- apply (hoare_stable same_data).
           ++ unfold_helpers. stable_struct. stable_prim ltac:(by repeat split).
           ++ intros w w' _ [Hw Hus] (_ & Hu & _). split; [congruence|].
              by apply Hus.
        -- intros []. rewrite Hup. intros w [Hw Hus].
           unfold bind at 1. unfold ret at 1. simpl. rewrite Hus.
           by apply updateUser_tail_keeps_files.
        -- intros w [Hw _]. by apply same_users_files_kept.
      * intros w [Hw _]. by apply same_users_files_kept.
    + intros w Hw. by apply same_users_files_kept.
  - intros w [Hi Hf]. unfold respond.
    destruct (res w); simpl; by split.
Qed.

End UpdateUserWithoutFile.

Global Instance url_kept_or_from_request_preorder (ID : Z) (rq : ImageForm) :
  PreOrder (url_kept_or_from_request ID rq).
Proof.
  split.
  - intros w r Hr. exists r. split; [done|]. split; by left.
  - intros w1 w2 w3 H12 H23 r3 Hr3.
    destruct (H23 r3 Hr3) as (r2 & Hr2 & Hid2 & Hurl2).
    destruct (H12 r2 Hr2) as (r1 & Hr1 & Hid1 & Hurl1).
    exists r1. split; [done|].
    destruct Hid1 as [|[]], Hid2 as [|[]], Hurl1 as [|[]], Hurl2 as [|[]];
      split; first [left; congruence | right; split; congruence].
Qed.

Lemma same_images_url_kept (ID : Z) (rq : ImageForm) (w w' : World) :
  images w' = images w → url_kept_or_from_request ID rq w w'.
Proof.
  intros Hi r Hr. exists r. rewrite Hi in Hr.
  split; [done|]. split; by left.
Qed.

Lemma Image_update_url (env : Env) (ID : Z) (rq : ImageForm) :
  stable (url_kept_or_from_request ID rq)
    (Image_update env (if_id rq) (if_url rq) (if_description rq) (if_gallery rq) ID).
Proof.
  intros w. unfold run, Image_update.
  repeat case_match; simpl; try by apply same_images_url_kept.
  intros r' Hr'. simpl in Hr'. unfold update_where in Hr'.
  apply list_elem_of_fmap in Hr' as (r & -> & Hr).
  exists r. split; [done|].
  destruct (decide (img_id r = ID)) as [Hid|Hid];
    [rewrite bool_decide_eq_true_2 by done
    |rewrite bool_decide_eq_false_2 by done; split; by left].
  split.
  - destruct (if_id rq) as [k|]; simpl; [right|left]; done.
  - destruct (if_url rq) as [u|]; simpl; [right|left]; done.
Qed.

Lemma updateImage_url (env : Env) (ID : Z) (rq : ImageForm) :
  stable (url_kept_or_from_request ID rq) (updateImage env ID rq).
Proof.
  unfold updateImage. unfold_helpers.
  stable_struct;
    first [ apply Image_update_url
          | stable_prim ltac:(by apply same_images_url_kept) ].
Qed.

(** C6, amended.  An update of a user that carries no new uploaded file
    leaves the image filename of every user row as it was (and, when the
    request rewrites no id, the filename under every id).  An update of an
    image that carries no new uploaded file leaves the url, which is the
    stored filename of an image, of every other row as it was; the url of
    the updated row is as it was or is the url sent with the request. *)
Theorem update_without_new_file (env : Env) (ID : Z) (w : World) :
  NoDup (usr_id <$> users w) →
  (∀ rq, truthy (uf_upload rq) = false →
         usr_image <$> users (run (updateUser env ID rq) w) = usr_image <$> users w ∧
         (uf_id rq = None →
          user_files (run (updateUser env ID rq) w) = user_files w)) ∧
  (∀ rq, truthy (if_upload rq) = false →
         url_kept_or_from_request ID rq w (run (updateImage env ID rq) w)).
Proof.
  intros Hnd. split.
  - intros rq Hup. by apply (updateUser_keeps_files env ID rq w Hup Hnd w).
  - intros rq _. apply updateImage_url.
Qed.

Lemma update_without_new_file_witness :
  NoDup (usr_id <$> users demo_world) ∧
  truthy (uf_upload rename_user_1) = false ∧
  truthy (if_upload rename_image_1) = false ∧
  user_files (run (updateUser (demo_env false false) 1 rename_user_1) demo_world)
    = user_files demo_world ∧
  url_kept_or_from_request 1 rename_image_1 demo_world
    (run (updateImage (demo_env false false) 1 rename_image_1) demo_world).
Proof.
  assert (Hnd : NoDup (usr_id <$> users demo_world)).
  { apply NoDup_singleton. }
  split; [exact Hnd|]. split; [reflexivity|]. split; [reflexivity|].
  destruct (update_without_new_file (demo_env false false) 1 demo_world Hnd)
    as [Hu Hi].
  split; [apply Hu; reflexivity|apply Hi; reflexivity].
Defined.

(** C6, as stated, fails: image 1 is stored under "a.jpg"; an update that
    carries no file and the url "b.jpg" is answered 200 and leaves the row
    with the url "b.jpg", while the file on disk is still "img/a.jpg". *)
Lemma update_without_file_changes_image_url :
  let w := demo_world in
  let w' := run (updateImage (demo_env false false) 1 rename_image_1) w in
  if_upload rename_image_1 = None ∧
  images w = [mkImage 1 "a.jpg" "first" "g1"] ∧
  images w' = [mkImage 1 "b.jpg" "first" "g1"] ∧
  status <$> res w' = Some 200 ∧
  disk w' = disk w.
Proof. simpl. repeat split; vm_compute; reflexivity. Qed.

(** ** The password that is persisted *)

(** C8.  The code does otherwise for an empty password.  [updateUser]
    hashes under [if (password)], which the empty string does not pass, and
    then gives the store [{ ...fields, image: img }], the password field
    included: the stored hash of user 1 is replaced by the empty string
    and the hash function is not called.  A signup, and an update with a
    non-empty password, store the bcrypt hash of cost 10. *)
Theorem blank_password_is_stored_unhashed :
  let env := demo_env false false in
  let w' := run (updateUser env 1 blank_password_for_user_1) demo_world in
  uf_password blank_password_for_user_1 = Some "" ∧
  usr_password <$> users demo_world = ["$2b$10$terces"] ∧
  res w' = Some (mkResponse 200 (message (JEnv "USER_UPDATED"))) ∧
  trace w' = [DbRead Users; DbUpdate Users 1; Sent 200] ∧
  usr_password <$> users w' = [""] ∧
  "" ≠ bcrypt_hash env "" 10 ∧
  usr_password <$> users (run (createUser env signup_bob) demo_world)
    = ["$2b$10$terces"; bcrypt_hash env "Str0ngP@ss" 10] ∧
  usr_password <$> users (run (updateUser env 1 rename_user_1) demo_world)
    = [bcrypt_hash env "Str0ngP@ss" 10] ∧
  trace (run (updateUser env 1 rename_user_1) demo_world)
    = [DbRead Users; Hash 10; DbUpdate Users 1; Sent 200].
Proof.
  cbv zeta. split_and!; try (vm_compute; reflexivity). discriminate.
Qed.

(** ** Requests whose checks fail *)

(** C2.  A failed check answers 403 and the handler goes on.  An image
    upload whose description fails the range check is answered 403; then
    the file is materialised, the temporary upload is removed and the row is
    created.  A signup under a taken name is answered 403; then the
    temporary upload is removed, even when the store refuses the row. *)
Theorem failed_check_does_not_stop_the_handler :
  let env := demo_env false false in
  let w1 := run (createImage env short_description) demo_world in
  let w2 := run (createUser (demo_env false true) signup_taken_name) demo_world in
  checkRange env (if_description short_description) (STRING_MIN env) (TEXT_MAX env)
    = false ∧
  res w1 = Some (mkResponse 403 (message (JEnv "CHECK_NAME"))) ∧
  images w1 = images demo_world ++ [mkImage 2 "c.jpg" "x" "g1"] ∧
  trace w1 = [Sent 403; DbRead Images;
              FsSetImage "up_1" "1700000000000.webp"; FsUnlink "img/up_1";
              DbCreate Images] ∧
  disk demo_world
    = {[ "img/a.jpg"; "img/up_1"; "img/users/ann-1.webp"; "img/users/up_2" ]} ∧
  disk w1
    = {[ "img/a.jpg"; "img/1700000000000.webp"; "img/users/ann-1.webp";
         "img/users/up_2" ]} ∧
  usr_name <$> users demo_world = ["Ann"] ∧
  res w2 = Some (mkResponse 403 (message (JEnvOr "DISPO_NAME" "DISPO_EMAIL"))) ∧
  trace w2 = [DbRead Users; Sent 403; FsUnlink "img/users/up_2"; Hash 10;
              DbCreate Users] ∧
  disk w2 = {[ "img/a.jpg"; "img/up_1"; "img/users/ann-1.webp" ]}.
Proof. simpl. repeat split; vm_compute; reflexivity. Qed.

(** ** Reading users *)

(** C3.  [readUser] sends the row as it is stored: the body of the 200
    has a [password] key, which holds the stored hash.  [listUsers] sends
    id, name, email and image only. *)
Theorem readUser_sends_password :
  let env := demo_env false false in
  users demo_world = [ann] ∧
  res (run (readUser env 1) demo_world) = Some (mkResponse 200 (user_toJSON ann)) ∧
  has_key "password" (user_toJSON ann) = true ∧
  ("password", JStr "$2b$10$terces") ∈
    match user_toJSON ann with JObj kvs => kvs | _ => [] end ∧
  res (run (listUsers env) demo_world)
    = Some (mkResponse 200
              (JArr [JObj [("id", JNum 1); ("name", JStr "Ann");
                           ("email", JStr "ann@x.com");
                           ("image", JStr "ann-1.webp")]])).
Proof.
  simpl. split; [reflexivity|]. split; [vm_compute; reflexivity|].
  split; [vm_compute; reflexivity|].
  split; [|vm_compute; reflexivity].
  do 4 apply list_elem_of_further. apply list_elem_of_here.
Qed.

(** ** Uploaded files *)

Global Instance no_new_file_preorder : PreOrder no_new_file.
Proof.
  split.
  - intros w. unfold no_new_file. set_solver.
  - intros w1 w2 w3. unfold no_new_file. set_solver.
Qed.

Ltac no_new_file_prims :=
  stable_prim ltac:(unfold no_new_file; simpl;
                    first [reflexivity | by apply subseteq_difference_l]).

Lemma createUser_no_new_file (env : Env) (rq : UserForm) :
  stable no_new_file (createUser env rq).
Proof. unfold createUser. unfold_helpers. stable_struct; no_new_file_prims. Qed.

Lemma updateUser_no_new_file (env : Env) (ID : Z) (rq : UserForm) :
  stable no_new_file (updateUser env ID rq).
Proof. unfold updateUser. unfold_helpers. stable_struct; no_new_file_prims. Qed.

(** C4.  The [setImage] of the user controller creates no file: whatever
    the request, [createUser] and [updateUser] add nothing to the disk.  A
    signup with an uploaded file is answered 201 with a row that names
    "Bob-1700000000000.webp", the temporary upload is removed, and no file
    of that name exists.  An image update with an uploaded file stops
    before [setImages] is called. *)
Theorem user_upload_is_not_materialised :
  (∀ env rq w, disk (run (createUser env rq) w) ⊆ disk w) ∧
  (∀ env ID rq w, disk (run (updateUser env ID rq) w) ⊆ disk w) ∧
  let env := demo_env false false in
  let w1 := run (createUser env signup_bob) demo_world in
  let w2 := run (updateImage env 1 replace_file_of_image_1) demo_world in
  uf_upload signup_bob = Some "up_2" ∧
  disk demo_world
    = {[ "img/a.jpg"; "img/up_1"; "img/users/ann-1.webp"; "img/users/up_2" ]} ∧
  status <$> res w1 = Some 201 ∧
  users w1 = [ann; mkUser 2 "Bob" "bob@x.com" "Bob-1700000000000.webp"
                     "$2b$10$ss@Pgn0rtS"] ∧
  trace w1 = [DbRead Users; FsUnlink "img/users/up_2"; Hash 10; DbCreate Users;
              Sent 201] ∧
  disk w1 = {[ "img/a.jpg"; "img/up_1"; "img/users/ann-1.webp" ]} ∧
  trace w2 = [DbRead Images; FsUnlink "img/undefined"; Sent 400] ∧
  disk w2 = disk demo_world.
Proof.
  split; [intros env rq w; apply createUser_no_new_file|].
  split; [intros env ID rq w; apply updateUser_no_new_file|].
  simpl. repeat split; vm_compute; reflexivity.
Qed.

(** ** Routes *)

Import Routes.

(** C9.  In the image router the POST, PUT and DELETE routes run
    [checkAuth] before their controller, which is not reached when
    [checkAuth] refuses; the GET route and the four routes of the auth
    router run their controller with no authentication middleware. *)
Theorem image_mutations_behind_checkAuth :
  (∀ m path chain,
     m ≠ GET → dispatch ImageRoute m path = Some chain →
     head chain = Some checkAuth ∧ invoked false chain = [checkAuth]) ∧
  (dispatch ImageRoute POST [] = Some [checkAuth; ImageCtrl_createImage] ∧
   ∀ id, dispatch ImageRoute PUT [id] = Some [checkAuth; ImageCtrl_updateImage] ∧
         dispatch ImageRoute DELETE [id] = Some [checkAuth; ImageCtrl_deleteImage]) ∧
  (∀ ok id,
     invoked ok <$> dispatch ImageRoute GET [] = Some [ImageCtrl_listImages] ∧
     invoked ok <$> dispatch AuthRoute GET [id] = Some [AuthCtrl_readAvatar] ∧
     invoked ok <$> dispatch AuthRoute POST [] = Some [AuthCtrl_loginUser] ∧
     invoked ok <$> dispatch AuthRoute POST ["password"]
       = Some [AuthCtrl_forgotPassword] ∧
     invoked ok <$> dispatch AuthRoute POST ["recaptcha"]
       = Some [AuthCtrl_checkRecaptcha]) ∧
  Forall (λ r, checkAuth ∉ r_chain r) AuthRoute ∧
  Forall (λ r, checkAuth ∉ r_chain r) (filter (λ r, r_method r = GET) ImageRoute).
Proof.
  split.
  { intros m path chain Hm Hd.
    destruct m; [done|..]; destruct path as [|x [|y path]];
      vm_compute in Hd; simplify_eq; done. }
  split; [split; [reflexivity|intros id; split; reflexivity]|].
  split; [intros ok id; repeat split; reflexivity|].
  split.
  - repeat constructor; intros H; 
      repeat (apply elem_of_cons in H as [H|H]; [discriminate|]);
      by apply elem_of_nil in H.
  - repeat constructor; intros H; 
      repeat (apply elem_of_cons in H as [H|H]; [discriminate|]);
      by apply elem_of_nil in H.
Qed.

Lemma image_mutations_behind_checkAuth_witness :
  PUT ≠ GET ∧
  dispatch ImageRoute PUT ["7"] = Some [checkAuth; ImageCtrl_updateImage] ∧
  head [checkAuth; ImageCtrl_updateImage] = Some checkAuth ∧
  invoked false [checkAuth; ImageCtrl_updateImage] = [checkAuth].
Proof.
  split; [discriminate|]. split; [reflexivity|].
  apply (proj1 image_mutations_behind_checkAuth PUT ["7"]
           [checkAuth; ImageCtrl_updateImage]); [discriminate|reflexivity].
Defined.

(** * Further properties of the handlers *)

(** ** The handlers that read *)

Global Instance no_mutation_preorder : PreOrder no_mutation.
Proof.
  split.
  - intros w. split; [reflexivity|done].
  - intros w1 w2 w3 [Hd1 Ht1] [Hd2 Ht2]. split; [by etransitivity|congruence].
Qed.

Lemma filter_is_mutation_snoc (l : list Event) (e : Event) :
  is_mutation e = false →
  filter is_mutation (l ++ [e]) = filter is_mutation l.
Proof.
  intros He. rewrite filter_app. simpl.
  rewrite filter_cons_False, filter_nil, app_nil_r; [done|].
  destruct (is_mutation e); [done|intros []].
Qed.

Ltac no_mutation_prims :=
  stable_prim ltac:(split; [by repeat split|];
                    simpl; rewrite ?filter_is_mutation_snoc; done).

(** X1.  [listImages], [listUsers] and [readUser] read only: whatever the
    store and the response object do, rows, counters and files are as
    before and no file operation or store write is issued. *)
Theorem read_handlers_change_nothing (env : Env) (ID : Z) (w : World) :
  no_mutation w (run (listImages env) w) ∧
  no_mutation w (run (listUsers env) w) ∧
  no_mutation w (run (readUser env ID) w).
Proof.
  split; [|split].
  - revert w. change (stable no_mutation (listImages env)).
    unfold listImages. stable_struct; no_mutation_prims.
  - revert w. change (stable no_mutation (listUsers env)).
    unfold listUsers. stable_struct; no_mutation_prims.
  - revert w. change (stable no_mutation (readUser env ID)).
    unfold readUser. stable_struct; no_mutation_prims.
Qed.

(** X2.  [listUsers] answers a fresh request with 404 when the read fails
    and else with 200 and one object per user row, in the order of the
    store, made of id, name, email and image; none of them has a
    [password] key. *)
Theorem listUsers_hides_password (env : Env) (w : World) :
  res w = None →
  res (run (listUsers env) w)
    = Some (if db_read_fails env
            then mkResponse 404 (message (JEnv "USERS_NOT_FOUND"))
            else mkResponse 200 (JArr (user_summary <$> users w))) ∧
  Forall (λ j, json_keys j = ["id"; "name"; "email"; "image"] ∧
               has_key "password" j = false)
         (user_summary <$> users w).
Proof.
  intros Hres. split.
  - unfold listUsers, run, try_catch, bind, User_findAll, respond.
    destruct (db_read_fails env); simpl; rewrite Hres; done.
  - apply Forall_fmap, Forall_forall. intros u _. split; [done|].
    unfold has_key. apply bool_decide_eq_false_2. simpl.
    intros H. repeat (apply elem_of_cons in H as [H|H]; [discriminate|]).
    by apply elem_of_nil in H.
Qed.

Lemma listUsers_hides_password_witness :
  res demo_world = None ∧
  res (run (listUsers (demo_env false false)) demo_world)
    = Some (mkResponse 200 (JArr (user_summary <$> users demo_world))) ∧
  Forall (λ j, json_keys j = ["id"; "name"; "email"; "image"] ∧
               has_key "password" j = false)
         (user_summary <$> users demo_world).
Proof.
  split; [reflexivity|].
  exact (listUsers_hides_password (demo_env false false) demo_world eq_refl).
Defined.

(** X3.  [readUser] has no branch for a missing row: for an id that no
    user has, [findByPk] resolves to [null] and the answer to a fresh
    request is 200 with the body [null], not 404. *)
Theorem readUser_unknown_id (env : Env) (ID : Z) (w : World) :
  head (filter (λ u, usr_id u = ID) (users w)) = None →
  db_read_fails env = false →
  res w = None →
  res (run (readUser env ID) w) = Some (mkResponse 200 JNull).
Proof.
  intros Hnone Hr Hres.
  unfold readUser, run, try_catch, bind, User_findByPk, respond.
  rewrite Hr, Hnone. simpl. by rewrite Hres.
Qed.

Lemma readUser_unknown_id_witness :
  head (filter (λ u, usr_id u = 9%Z) (users demo_world)) = None ∧
  db_read_fails (demo_env false false) = false ∧
  res demo_world = None ∧
  res (run (readUser (demo_env false false) 9) demo_world)
    = Some (mkResponse 200 JNull).
Proof.
  split; [reflexivity|]. split; [reflexivity|]. split; [reflexivity|].
  apply (readUser_unknown_id (demo_env false false) 9 demo_world); reflexivity.
Defined.

(** ** Each controller keeps to its table *)

Ltac untouched_prims := stable_prim ltac:(by split).

(** X4.  The image handlers never change a user row or the user counter,
    and the user handlers never change an image row or the image counter,
    whatever the request and whatever fails. *)
Theorem controllers_keep_to_their_table
    (env : Env) (ID : Z) (irq : ImageForm) (urq : UserForm) (w : World) :
  (users_untouched w (run (createImage env irq) w) ∧
   users_untouched w (run (updateImage env ID irq) w) ∧
   users_untouched w (run (deleteImage env ID) w)) ∧
  (images_untouched w (run (createUser env urq) w) ∧
   images_untouched w (run (updateUser env ID urq) w) ∧
   images_untouched w (run (deleteUser env ID) w)).
Proof.
  split; (split; [|split]); revert w.
  - change (stable users_untouched (createImage env irq)).
    unfold createImage. unfold_helpers. stable_struct; untouched_prims.
  - change (stable users_untouched (updateImage env ID irq)).
    unfold updateImage. unfold_helpers. stable_struct; untouched_prims.
  - change (stable users_untouched (deleteImage env ID)).
    unfold deleteImage. stable_struct; untouched_prims.
  - change (stable images_untouched (createUser env urq)).
    unfold createUser. unfold_helpers. stable_struct; untouched_prims.
  - change (stable images_untouched (updateUser env ID urq)).
    unfold updateUser. unfold_helpers. stable_struct; untouched_prims.
  - change (stable images_untouched (deleteUser env ID)).
    unfold deleteUser. stable_struct; untouched_prims.
Qed.

(** ** An image update that carries a new file *)

Global Instance no_200_preorder : PreOrder no_200.
Proof.
  split.
  - intros w H. exact H.
  - intros w1 w2 w3 H12 H23 H. apply H23, H12, H.
Qed.

Global Instance images_kept_files_but_one_preorder (p : string) :
  PreOrder (images_kept_files_but_one p).
Proof.
  split.
  - intros w. split; [done|]. intros f Hf _. exact Hf.
  - intros w1 w2 w3 [Hi1 Hf1] [Hi2 Hf2]. split; [congruence|].
    intros f Hf Hp. apply Hf2; [|done]. by apply Hf1.
Qed.

Global Instance no_setImage_preorder : PreOrder no_setImage.
Proof.
  split.
  - intros w i o H. exact H.
  - intros w1 w2 w3 H12 H23 i o H. apply H12, H23, H.
Qed.

(** As [updateImage_new_file_stable], for relations that the responses
    other than 200 respect. *)
Lemma updateImage_new_file_stable_but_200 (R : relation World) `{!PreOrder R}
    (env : Env) (ID : Z) (rq : ImageForm) :
  truthy (if_upload rq) = true →
  (∀ c b, c ≠ 200 → stable R (respond c b)) →
  (∀ g, stable R (Image_findAll_where_gallery env g)) →
  stable R (fs_unlink (IMG_URL env +:+ "undefined")) →
  stable R (updateImage env ID rq).
Proof.
  intros Hup Hres Hread Hunl. unfold updateImage. rewrite Hup.
  destruct (if_error rq); [by apply stable_ret|].
  apply stable_try_catch; [done| |by apply Hres].
  unfold_helpers.
  apply stable_bind; [done| |intros _].
  { destruct (checkRange _ _ _ _); [by apply stable_ret|by apply Hres]. }
  apply stable_bind; [done|apply Hread|intros imgs].
  destruct imgs as [|r0 imgs]; [by apply Hres|].
  apply stable_bind; [done| |intros _].
  { apply stable_for_each; [done|]. intros r.
    destruct (js_eq _ _); [by apply Hres|by apply stable_ret]. }
  apply stable_bind_never; [apply unlink_then_unbound_never|].
  apply stable_bind; [done| |intros _].
  { replace (js_str _) with "undefined"; [exact Hunl|].
    by destruct (head (filter (λ r, img_id r = ID) (r0 :: imgs))). }
  apply stable_bind_never; [apply js_unbound_never|by apply stable_throw].
Qed.

Lemma elem_of_snoc_ne {A} (l : list A) (x y : A) :
  x ∈ l ++ [y] → x ≠ y → x ∈ l.
Proof.
  intros Hin Hne. apply elem_of_app in Hin as [Hin|Hin]; [done|].
  by apply list_elem_of_singleton in Hin.
Qed.

(** X5.  An image update that carries a new file never goes through: a
    fresh request is never answered 200, no image row changes whatever the
    store does, [setImage] is not called, and every file other than
    [IMG_URL + "undefined"] stays on disk, the temporary upload among
    them. *)
Theorem updateImage_new_file_never_succeeds
    (env : Env) (ID : Z) (rq : ImageForm) (w : World) :
  truthy (if_upload rq) = true →
  res w = None →
  let w' := run (updateImage env ID rq) w in
  ¬ answered 200 w' ∧
  images w' = images w ∧
  (∀ f, f ∈ disk w → f ≠ IMG_URL env +:+ "undefined" → f ∈ disk w') ∧
  (∀ i o, FsSetImage i o ∈ trace w' → FsSetImage i o ∈ trace w).
Proof.
  intros Hup Hres. simpl.
  assert (H200 : stable no_200 (updateImage env ID rq)).
  { apply updateImage_new_file_stable_but_200; [apply _|done|..].
    - intros c b Hc. intros w0. unfold run, respond.
      destruct (res w0) eqn:E; simpl; [done|].
      intros _. unfold answered. simpl. congruence.
    - intros g. stable_prim ltac:(by intros ?).
    - stable_prim ltac:(by intros ?). }
  assert (Hkeep : stable (images_kept_files_but_one (IMG_URL env +:+ "undefined"))
                    (updateImage env ID rq)).
  { apply updateImage_new_file_stable_but_200; [apply _|done|..].
    - intros c b _. stable_prim ltac:(by split).
    - intros g. stable_prim ltac:(by split).
    - stable_prim ltac:(split; [done|]; simpl; intros; set_solver). }
  assert (Hset : stable no_setImage (updateImage env ID rq)).
  { apply updateImage_new_file_stable_but_200; [apply _|done|..].
    - intros c b _.
      stable_prim ltac:(first [done | intros i o Hin; simpl in Hin;
                                      by apply elem_of_snoc_ne in Hin]).
    - intros g.
      stable_prim ltac:(intros i o Hin; simpl in Hin;
                        by apply elem_of_snoc_ne in Hin).
    - stable_prim ltac:(intros i o Hin; simpl in Hin;
                        by apply elem_of_snoc_ne in Hin). }
  split; [|split; [|split]].
  - apply H200. unfold answered. by rewrite Hres.
  - apply Hkeep.
  - apply Hkeep.
  - apply Hset.
Qed.

Lemma updateImage_new_file_never_succeeds_witness :
  truthy (if_upload replace_file_of_image_1) = true ∧
  res demo_world = None ∧
  let w' := run (updateImage (demo_env false false) 1 replace_file_of_image_1)
              demo_world in
  ¬ answered 200 w' ∧
  images w' = images demo_world ∧
  (∀ f, f ∈ disk demo_world → f ≠ IMG_URL (demo_env false false) +:+ "undefined" →
        f ∈ disk w') ∧
  (∀ i o, FsSetImage i o ∈ trace w' → FsSetImage i o ∈ trace demo_world).
Proof.
  split; [reflexivity|]. split; [reflexivity|].
  apply (updateImage_new_file_never_succeeds (demo_env false false) 1
           replace_file_of_image_1 demo_world); reflexivity.
Defined.

(** ** Deleting an image when the store refuses *)

(** X6.  [deleteImage] unlinks before it destroys: when the file is on
    disk and the store refuses the destroy, the file is gone, the row is
    still there and the answer is 400. *)
Theorem deleteImage_store_refuses (env : Env) (ID : Z) (w : World) (r : ImageRow) :
  head (filter (λ r, img_id r = ID) (images w)) = Some r →
  IMG_URL env +:+ img_url r ∈ disk w →
  db_read_fails env = false →
  db_write_fails env = true →
  res w = None →
  let w' := run (deleteImage env ID) w in
  images w' = images w ∧
  disk w' = disk w ∖ {[IMG_URL env +:+ img_url r]} ∧
  answered 400 w'.
Proof.
  intros Hrow Hfile Hr Hw Hres. simpl.
  unfold deleteImage, run, try_catch, bind, Image_findByPk.
  rewrite Hr, Hrow. unfold fs_unlink. simpl.
  rewrite bool_decide_eq_true_2 by done.
  unfold Image_destroy. rewrite Hw. simpl.
  unfold respond. simpl. rewrite Hres. done.
Qed.

Lemma deleteImage_store_refuses_witness :
  head (filter (λ r, img_id r = 1%Z) (images demo_world))
    = Some (mkImage 1 "a.jpg" "first" "g1") ∧
  (IMG_URL (demo_env false true) +:+ "a.jpg" ∈ disk demo_world) ∧
  res demo_world = None ∧
  let w' := run (deleteImage (demo_env false true) 1) demo_world in
  images w' = images demo_world ∧
  disk w' = disk demo_world ∖ {[IMG_URL (demo_env false true) +:+ "a.jpg"]} ∧
  answered 400 w'.
Proof.
  assert (Hfile : IMG_URL (demo_env false true) +:+ "a.jpg" ∈ disk demo_world).
  { apply (bool_decide_unpack _). vm_compute. exact I. }
  split; [reflexivity|]. split; [exact Hfile|]. split; [reflexivity|].
  exact (deleteImage_store_refuses (demo_env false true) 1 demo_world
           (mkImage 1 "a.jpg" "first" "g1") eq_refl Hfile eq_refl eq_refl eq_refl).
Defined.

(** ** Checks that pass, checks that fail twice *)

(** X7.  [updateImage] looks the image up among the rows of the gallery
    named in the request: when that gallery has no row, a fresh request is
    answered 404 (403 when the description check has failed before) and
    nothing is changed, whether or not the image [ID] exists. *)
Theorem updateImage_empty_gallery
    (env : Env) (ID : Z) (rq : ImageForm) (w : World) (g : string) :
  if_error rq = false →
  if_gallery rq = Some g →
  (∀ r, r ∈ images w → img_gallery r ≠ g) →
  db_read_fails env = false →
  res w = None →
  let w' := run (updateImage env ID rq) w in
  no_mutation w w' ∧
  answered (if checkRange env (if_description rq) (STRING_MIN env) (TEXT_MAX env)
            then 404 else 403) w'.
Proof.
  intros Herr Hg Hno Hr Hres. simpl.
  unfold updateImage, run, try_catch, bind. rewrite Herr.
  unfold checkImageData, Image_findAll_where_gallery. rewrite Hr, Hg.
  destruct (checkRange _ _ _ _); [|rewrite respond_fresh by done]; simpl;
    match goal with
    | |- context [@filter ?a ?b ?c ?P ?H (images w)] =>
        set (l := @filter a b c P H (images w));
        assert (Hnil : l = []) by (by apply filter_none);
        clearbody l; subst l
    end.
  - rewrite respond_fresh by done. simpl. split; [|done].
    split; [by repeat split|]. simpl.
    by rewrite !filter_is_mutation_snoc.
  - rewrite !respond_again by done. simpl. split; [|done].
    split; [by repeat split|]. simpl.
    by rewrite !filter_is_mutation_snoc.
Qed.

Lemma updateImage_empty_gallery_witness :
  if_error same_url_other_gallery = false ∧
  (∀ r, r ∈ images demo_world → img_gallery r ≠ "g2") ∧
  res demo_world = None ∧
  let w' := run (updateImage (demo_env false false) 1 same_url_other_gallery)
              demo_world in
  no_mutation demo_world w' ∧ answered 404 w'.
Proof.
  assert (Hno : ∀ r, r ∈ images demo_world → img_gallery r ≠ "g2").
  { intros r Hr. apply list_elem_of_singleton in Hr as ->. discriminate. }
  split; [reflexivity|]. split; [exact Hno|]. split; [reflexivity|].
  exact (updateImage_empty_gallery (demo_env false false) 1
           same_url_other_gallery demo_world "g2"
           eq_refl eq_refl Hno eq_refl eq_refl).
Defined.

(** X8.  A second failed check stops the handler: when the description
    check has answered 403 and the url is taken in the gallery, the
    uniqueness check throws on the response already sent, so that
    [createImage] (and [updateImage], for another image of the gallery)
    touches neither files nor rows; the client keeps the first 403. *)
Theorem second_failed_check_stops_the_handler
    (env : Env) (ID : Z) (rq : ImageForm) (w : World) (r : ImageRow) :
  if_error rq = false →
  checkRange env (if_description rq) (STRING_MIN env) (TEXT_MAX env) = false →
  r ∈ images w →
  Some (img_gallery r) = if_gallery rq →
  Some (img_url r) = if_url rq →
  db_read_fails env = false →
  res w = None →
  (no_mutation w (run (createImage env rq) w) ∧
   res (run (createImage env rq) w)
     = Some (mkResponse 403 (message (JEnv "CHECK_NAME")))) ∧
  (img_id r ≠ ID →
   no_mutation w (run (updateImage env ID rq) w) ∧
   res (run (updateImage env ID rq) w)
     = Some (mkResponse 403 (message (JEnv "CHECK_NAME")))).
Proof.
  intros Herr Hrange Hrow Hg Hu Hr Hres.
  assert (Hin : r ∈ filter (λ x, img_gallery x = img_gallery r) (images w)).
  { apply list_elem_of_filter. by split. }
  split.
  - unfold createImage, run, try_catch, bind. rewrite Herr.
    unfold checkImageData. rewrite Hrange. rewrite respond_fresh by done.
    unfold Image_findAll_where_gallery. rewrite Hr, <- Hg. simpl.
    rewrite (checkImageUnique_throws _ _ r) by done.
    rewrite respond_again by done. simpl.
    split; [|done]. split; [by repeat split|]. simpl.
    by rewrite !filter_is_mutation_snoc.
  - intros Hid.
    unfold updateImage, run, try_catch, bind. rewrite Herr.
    unfold checkImageData. rewrite Hrange. rewrite respond_fresh by done.
    unfold Image_findAll_where_gallery. rewrite Hr, <- Hg. simpl.
    destruct (filter (λ x, img_gallery x = img_gallery r) (images w))
      as [|x imgs] eqn:E; [by apply elem_of_nil in Hin|].
    rewrite (checkImageUnique_throws _ _ r);
      [|done|apply list_elem_of_filter; by split|done].
    rewrite respond_again by done. simpl.
    split; [|done]. split; [by repeat split|]. simpl.
    by rewrite !filter_is_mutation_snoc.
Qed.

Lemma second_failed_check_stops_the_handler_witness :
  if_error short_and_taken = false ∧
  checkRange (demo_env false false) (if_description short_and_taken)
    (STRING_MIN (demo_env false false)) (TEXT_MAX (demo_env false false)) = false ∧
  mkImage 1 "a.jpg" "first" "g1" ∈ images demo_world ∧
  res demo_world = None ∧
  no_mutation demo_world (run (createImage (demo_env false false) short_and_taken)
                            demo_world) ∧
  res (run (createImage (demo_env false false) short_and_taken) demo_world)
    = Some (mkResponse 403 (message (JEnv "CHECK_NAME"))).
Proof.
  assert (Hrow : mkImage 1 "a.jpg" "first" "g1" ∈ images demo_world)
    by apply list_elem_of_here.
  split; [reflexivity|]. split; [reflexivity|]. split; [exact Hrow|].
  split; [reflexivity|].
  exact (proj1 (second_failed_check_stops_the_handler (demo_env false false) 2
                  short_and_taken demo_world (mkImage 1 "a.jpg" "first" "g1")
                  eq_refl eq_refl Hrow eq_refl eq_refl eq_refl eq_refl)).
Defined.

(** ** Creating an image, then listing *)

(** From here on the INSERT and UPDATE statements are opened by hand. *)
#[local] Arguments Image_create : simpl never.
#[local] Arguments Image_update : simpl never.
#[local] Arguments User_create : simpl never.
#[local] Arguments User_update : simpl never.



(** ** Creating a user, then listing *)

Lemma checkUserUnique_pass (name email : jsstring) (rows : list UserRow) (w : World) :
  (∀ u, u ∈ rows → Some (usr_name u) ≠ name ∧ Some (usr_email u) ≠ email) →
  for_each (checkUserUnique name email) rows w = (Done tt, w).
Proof.
  induction rows as [|x rows IH]; intros Hno; [done|].
  simpl. unfold bind, checkUserUnique at 1, js_eq.
  destruct (Hno x) as [Hn He]; [left|].
  rewrite !bool_decide_eq_false_2 by done.
  simpl. apply IH. intros u Hu. apply Hno. by right.
Qed.



(** ** Requests with a missing field *)

Lemma bcrypt_undefined_never (env : Env) (rounds : nat) :
  never_done (bcrypt_hash_call env None rounds).
Proof. intros w. reflexivity. Qed.

(** X11.  No row is created from a request that lacks a field the table
    requires: [createImage] without url, description or gallery and
    [createUser] without name, email or password leave their table as it
    was, whatever else the request carries and whatever the checks say. *)
Theorem create_needs_every_field (env : Env) (w : World) :
  (∀ rq, if_url rq = None ∨ if_description rq = None ∨ if_gallery rq = None →
         images_untouched w (run (createImage env rq) w)) ∧
  (∀ rq, uf_name rq = None ∨ uf_email rq = None ∨ uf_password rq = None →
         users_untouched w (run (createUser env rq) w)).
Proof.
  split.
  - intros rq Hmiss. revert w.
    change (stable images_untouched (createImage env rq)).
    unfold createImage. unfold_helpers.
    destruct Hmiss as [H|[H|H]]; rewrite H;
      stable_struct; untouched_prims.
  - intros rq Hmiss. revert w.
    change (stable users_untouched (createUser env rq)).
    unfold createUser. unfold_helpers.
    destruct Hmiss as [H|[H|H]]; rewrite H;
      repeat first
        [ apply stable_bind_never; [apply bcrypt_undefined_never|]
        | stable_step ];
      untouched_prims.
Qed.

Lemma create_needs_every_field_witness :
  uf_password signup_without_password = None ∧
  users_untouched demo_world
    (run (createUser (demo_env false false) signup_without_password) demo_world).
Proof.
  split; [reflexivity|].
  apply (proj2 (create_needs_every_field (demo_env false false) demo_world)).
  right. right. reflexivity.
Defined.

(** ** A user update that is let through *)

Lemma User_update_accepted (env : Env) (id : option Z) (n e i p : jsstring)
    (ID : Z) (w : World) :
  db_write_fails env = false →
  update_accepted usr_id user_clash ID (user_set id n e i p) (users w) →
  User_update env id n e i p ID w
  = (Done tt, with_users (update_where usr_id ID (user_set id n e i p))
                (emit (DbUpdate Users ID) w)).
Proof.
  intros Hw Hacc. unfold User_update. rewrite Hw.
  by rewrite bool_decide_eq_true_2.
Qed.


Section UpdateUserLetThrough.

Context (env : Env) (ID : Z) (rq : UserForm) (w : World) (slug : string).
Hypothesis Hlet : update_let_through env ID rq w slug.

(** The update writes name and email where sent, the image name read from
    the row or generated for the new file, the hash of a non-empty
    password or else the password field as it came, and the id when one
    is sent. *)
Lemma updateUser_let_through :
  let w' := run (updateUser env ID rq) w in
  answered 200 w' ∧
  users w' = update_where usr_id ID (updated_user env ID rq w slug) (users w) ∧
  disk w' = (if truthy (uf_upload rq)
             then disk w ∖ {[user_upload_path env rq]} else disk w).
Proof.
  destruct Hlet as (Herr & Hrange & Hmail & Hrows & Hfree & Hfile & Hpass &
                    Hacc & Hr & Hw & Hres).
  cbv zeta. unfold updated_user, update_image_name, update_password in *.
  unfold updateUser, run, try_catch, bind. rewrite Herr.
  unfold checkUserData. rewrite Hrange, Hmail. simpl.
  unfold User_findAll. rewrite Hr. simpl.
  assert (Hpassed : ∀ w0,
            for_each (checkUserUnique (uf_name rq) (uf_email rq))
              (filter (λ u, usr_id u ≠ ID) (users w)) w0 = (Done tt, w0)).
  { intros w0. apply checkUserUnique_pass.
    intros u Hu. apply list_elem_of_filter in Hu as [Hid Hu].
    apply Hfree; [done|]. intros [= Heq]. by apply Hid. }
  destruct (users w) as [|u0 us] eqn:Eus; [done|]. rewrite <- Eus in *.
  rewrite Hpassed.
  destruct (truthy (uf_upload rq)) eqn:Et.
  - destruct Hfile as [Hslug Hpath]; [done|].
    unfold getName_call. rewrite Hslug. fold (user_image_name env slug).
    unfold UserCtrl_setImage, ret, fs_unlink. fold (user_upload_path env rq).
    simpl. rewrite bool_decide_eq_true_2 by done.
    destruct (truthy (uf_password rq)) eqn:Ep.
    + unfold checkUserPassword. rewrite Hpass by done.
      destruct (uf_password rq) as [p|] eqn:Epw; [|done].
      unfold bcrypt_hash_call. simpl.
      rewrite User_update_accepted by done.
      rewrite respond_fresh by done. done.
    + rewrite User_update_accepted by done.
      rewrite respond_fresh by done. done.
  - unfold ret. simpl.
    destruct (truthy (uf_password rq)) eqn:Ep.
    + unfold checkUserPassword. rewrite Hpass by done.
      destruct (uf_password rq) as [p|] eqn:Epw; [|done].
      unfold bcrypt_hash_call. simpl.
      rewrite User_update_accepted by done.
      rewrite respond_fresh by done. done.
    + rewrite User_update_accepted by done.
      rewrite respond_fresh by done. done.
Qed.

(** The row that had the id [ID] is the one row under the id it ends
    with. *)
Lemma updated_user_found (u u' : UserRow) :
  u ∈ users w → usr_id u = ID →
  u' ∈ update_where usr_id ID (updated_user env ID rq w slug) (users w) →
  usr_id u' = default ID (uf_id rq) →
  ∃ v, v ∈ users w ∧ usr_id v = ID ∧ u' = updated_user env ID rq w slug v.
Proof.
  destruct Hlet as (_ & _ & _ & _ & _ & _ & _ & Hacc & _).
  rewrite update_accepted_spec in Hacc.
  intros Hu Hid Hu' Hid'. unfold update_where in Hu'.
  apply list_elem_of_fmap in Hu' as (v & -> & Hv).
  destruct (decide (usr_id v = ID)) as [Hv1|Hv1].
  - rewrite bool_decide_eq_true_2 by done. by exists v.
  - rewrite bool_decide_eq_false_2 in Hid' by done.
    destruct (Hacc u v Hu Hid Hv Hv1). left. simpl. by rewrite Hid, Hid'.
Qed.

End UpdateUserLetThrough.

(** X12.  [updateUser] does not look whether the user exists: an update
    that is let through for an id that no row has is answered 200, and the
    user rows are as before. *)
Theorem updateUser_unknown_id
    (env : Env) (ID : Z) (rq : UserForm) (w : World) (slug : string) :
  update_let_through env ID rq w slug →
  (∀ u, u ∈ users w → usr_id u ≠ ID) →
  answered 200 (run (updateUser env ID rq) w) ∧
  users (run (updateUser env ID rq) w) = users w.
Proof.
  intros Hlet Hno.
  destruct (updateUser_let_through env ID rq w slug Hlet) as (H200 & Hus & _).
  split; [exact H200|]. rewrite Hus. by apply update_where_none.
Qed.

Lemma updateUser_unknown_id_witness :
  update_let_through (demo_env false false) 9 rename_user_9 demo_world "Zoe" ∧
  (∀ u, u ∈ users demo_world → usr_id u ≠ 9%Z) ∧
  answered 200 (run (updateUser (demo_env false false) 9 rename_user_9) demo_world) ∧
  users (run (updateUser (demo_env false false) 9 rename_user_9) demo_world)
    = users demo_world.
Proof.
  assert (Hlet : update_let_through (demo_env false false) 9 rename_user_9
                   demo_world "Zoe").
  { unfold update_let_through. split_and!; try reflexivity.
    - discriminate.
    - intros v Hv _. apply list_elem_of_singleton in Hv as ->.
      split; discriminate.
    - intros H. vm_compute in H. discriminate H.
    - apply (bool_decide_unpack _). vm_compute. exact I. }
  assert (Hno : ∀ u, u ∈ users demo_world → usr_id u ≠ 9%Z).
  { intros v Hv. apply list_elem_of_singleton in Hv as ->. discriminate. }
  split; [exact Hlet|]. split; [exact Hno|].
  exact (updateUser_unknown_id (demo_env false false) 9 rename_user_9
           demo_world "Zoe" Hlet Hno).
Defined.

(** X13.  An empty password field overwrites the stored hash: in an
    update that is let through with [password] sent as the empty string,
    the hashing branch is skipped and the field goes to the store with the
    others, so that the row [ID] (under the id the request gives it, when
    it sends one) ends with the empty string as its password. *)
Theorem updateUser_blank_password
    (env : Env) (ID : Z) (rq : UserForm) (w : World) (slug : string) (u : UserRow) :
  update_let_through env ID rq w slug →
  uf_password rq = Some "" →
  u ∈ users w →
  usr_id u = ID →
  let ID' := default ID (uf_id rq) in
  answered 200 (run (updateUser env ID rq) w) ∧
  (∃ u', u' ∈ users (run (updateUser env ID rq) w) ∧
         usr_id u' = ID' ∧ usr_password u' = "") ∧
  (∀ u', u' ∈ users (run (updateUser env ID rq) w) → usr_id u' = ID' →
         usr_password u' = "").
Proof.
  intros Hlet Hpw Hu Hid. cbv zeta.
  destruct (updateUser_let_through env ID rq w slug Hlet) as (H200 & Hus & _).
  assert (Hset : ∀ v, usr_id v = ID →
            usr_id (updated_user env ID rq w slug v) = default ID (uf_id rq) ∧
            usr_password (updated_user env ID rq w slug v) = "").
  { intros v Hv. unfold updated_user, update_password. rewrite Hpw. simpl.
    by rewrite Hv. }
  split; [exact H200|]. rewrite Hus. split.
  - exists (updated_user env ID rq w slug u). split; [|by apply Hset].
    unfold update_where. apply list_elem_of_fmap. exists u.
    by rewrite bool_decide_eq_true_2.
  - intros u' Hu' Hid'.
    destruct (updated_user_found env ID rq w slug Hlet u u' Hu Hid Hu' Hid')
      as (v & _ & Hv & ->).
    by apply Hset.
Qed.

Lemma updateUser_blank_password_witness :
  update_let_through (demo_env false false) 1 blank_password_for_user_1
    demo_world "Ann" ∧
  uf_password blank_password_for_user_1 = Some "" ∧
  ann ∈ users demo_world ∧
  usr_password ann = "$2b$10$terces" ∧
  usr_password <$> users (run (updateUser (demo_env false false) 1
                                 blank_password_for_user_1) demo_world)
    = [""] ∧
  (∀ u', u' ∈ users (run (updateUser (demo_env false false) 1
                            blank_password_for_user_1) demo_world) →
         usr_id u' = 1%Z → usr_password u' = "").
Proof.
  assert (Hlet : update_let_through (demo_env false false) 1
                   blank_password_for_user_1 demo_world "Ann").
  { unfold update_let_through. split_and!; try reflexivity.
    - discriminate.
    - intros v Hv Hid. apply list_elem_of_singleton in Hv as ->.
      by destruct Hid.
    - intros H. vm_compute in H. discriminate H.
    - intros H. vm_compute in H. discriminate H.
    - apply (bool_decide_unpack _). vm_compute. exact I. }
  assert (Hin : ann ∈ users demo_world) by apply list_elem_of_here.
  split; [exact Hlet|]. split; [reflexivity|]. split; [exact Hin|].
  split; [reflexivity|]. split; [vm_compute; reflexivity|].
  exact (proj2 (proj2 (updateUser_blank_password (demo_env false false) 1
                         blank_password_for_user_1 demo_world "Ann" ann
                         Hlet eq_refl Hin eq_refl))).
Defined.

(** X14.  A user update with a new file renames without storing: in an
    update that is let through with an uploaded file, the row [ID] (under
    the id the request gives it, when it sends one) ends with the
    generated image name, the temporary upload is removed, and the disk is
    otherwise as before, so that the file the row named before is still
    there and no file of the new name has appeared. *)
Theorem updateUser_new_file
    (env : Env) (ID : Z) (rq : UserForm) (w : World) (slug : string) (u : UserRow) :
  update_let_through env ID rq w slug →
  truthy (uf_upload rq) = true →
  u ∈ users w →
  usr_id u = ID →
  let w' := run (updateUser env ID rq) w in
  (∃ u', u' ∈ users w' ∧ usr_id u' = default ID (uf_id rq) ∧
         usr_image u' = user_image_name env slug) ∧
  disk w' = disk w ∖ {[user_upload_path env rq]} ∧
  (USERS_IMG env +:+ usr_image u ∈ disk w →
   USERS_IMG env +:+ usr_image u ≠ user_upload_path env rq →
   USERS_IMG env +:+ usr_image u ∈ disk w') ∧
  (USERS_IMG env +:+ user_image_name env slug ∉ disk w →
   USERS_IMG env +:+ user_image_name env slug ∉ disk w').
Proof.
  intros Hlet Hup Hu Hid. cbv zeta.
  destruct (updateUser_let_through env ID rq w slug Hlet) as (_ & Hus & Hd).
  rewrite Hup in Hd. rewrite Hus, Hd. split; [|split; [done|split]].
  - exists (updated_user env ID rq w slug u). split.
    + unfold update_where. apply list_elem_of_fmap. exists u.
      by rewrite bool_decide_eq_true_2.
    + unfold updated_user, update_image_name. rewrite Hup. simpl.
      by rewrite Hid.
  - intros Hold Hne. apply elem_of_difference. split; [done|].
    by apply not_elem_of_singleton.
  - intros Hnew Hin. apply elem_of_difference in Hin as [Hin _]. by apply Hnew.
Qed.

Lemma updateUser_new_file_witness :
  update_let_through (demo_env false false) 1 new_file_for_user_1
    demo_world "Ann" ∧
  truthy (uf_upload new_file_for_user_1) = true ∧
  ann ∈ users demo_world ∧
  usr_image <$> users (run (updateUser (demo_env false false) 1
                              new_file_for_user_1) demo_world)
    = ["Ann-1700000000000.webp"] ∧
  disk (run (updateUser (demo_env false false) 1 new_file_for_user_1) demo_world)
    = disk demo_world ∖ {[user_upload_path (demo_env false false) new_file_for_user_1]}.
Proof.
  assert (Hfile : user_upload_path (demo_env false false) new_file_for_user_1
                  ∈ disk demo_world).
  { apply (bool_decide_unpack _). vm_compute. exact I. }
  assert (Hlet : update_let_through (demo_env false false) 1
                   new_file_for_user_1 demo_world "Ann").
  { unfold update_let_through. split_and!; try reflexivity.
    - discriminate.
    - intros v Hv Hid. apply list_elem_of_singleton in Hv as ->.
      by destruct Hid.
    - intros _. split; [reflexivity|exact Hfile].
    - apply (bool_decide_unpack _). vm_compute. exact I. }
  assert (Hin : ann ∈ users demo_world) by apply list_elem_of_here.
  split; [exact Hlet|]. split; [reflexivity|]. split; [exact Hin|].
  split; [vm_compute; reflexivity|].
  exact (proj1 (proj2 (updateUser_new_file (demo_env false false) 1
                         new_file_for_user_1 demo_world "Ann" ann
                         Hlet eq_refl Hin eq_refl))).
Defined.

(** ** An image create that the store refuses, an image update that is let
    through *)

(** X15.  [createImage] handles the file before the row: when the checks
    pass and the file part succeeds but the store refuses the row, the
    answer is 400, no row is added, and the disk keeps what the file part
    made of it (the stored file with no row, the temporary upload gone). *)
Theorem createImage_store_refuses
    (env : Env) (rq : ImageForm) (w : World) (u d g : string)
    (disk' : gset string) :
  if_error rq = false →
  if_url rq = Some u →
  if_description rq = Some d →
  if_gallery rq = Some g →
  checkRange env (Some d) (STRING_MIN env) (TEXT_MAX env) = true →
  (∀ r, r ∈ images w → img_gallery r = g → img_url r ≠ u) →
  disk_after_image_upload env rq (disk w) = Some disk' →
  db_read_fails env = false →
  db_write_fails env = true →
  res w = None →
  let w1 := run (createImage env rq) w in
  answered 400 w1 ∧ images w1 = images w ∧ disk w1 = disk'.
Proof.
  intros Herr Hu Hd Hg Hrange Hfree Hdisk Hr Hw Hres. cbv zeta.
  unfold createImage, run, try_catch, bind. rewrite Herr.
  unfold checkImageData. rewrite Hd, Hrange. simpl.
  unfold Image_findAll_where_gallery. rewrite Hr, Hg. simpl.
  rewrite checkImageUnique_pass.
  2:{ intros r Hin. apply list_elem_of_filter in Hin as [Hgal Hin].
      rewrite Hu. intros [= Heq]. by apply (Hfree r). }
  unfold disk_after_image_upload in Hdisk.
  destruct (truthy (if_upload rq)).
  - unfold setImages, middlewares_setImage. simpl.
    fold (image_file_name env).
    destruct (setImage env _ _ (disk w)) as [d'|]; [|done]. simpl in Hdisk.
    unfold fs_unlink. simpl. fold (upload_path env rq).
    destruct (bool_decide (upload_path env rq ∈ d')); [|done].
    injection Hdisk as <-.
    unfold Image_create. rewrite ?Hu, ?Hd, ?Hg, Hw. simpl.
    rewrite respond_fresh by done. done.
  - injection Hdisk as <-. simpl.
    unfold Image_create. rewrite ?Hu, ?Hd, ?Hg, Hw. simpl.
    rewrite respond_fresh by done. done.
Qed.

Lemma createImage_store_refuses_witness :
  let env := demo_env false true in
  checkRange env (Some "third") (STRING_MIN env) (TEXT_MAX env) = true ∧
  (∀ r, r ∈ images demo_world → img_gallery r = "g1" → img_url r ≠ "c.jpg") ∧
  disk_after_image_upload env upload_c (disk demo_world)
    = Some {[ "img/a.jpg"; "img/1700000000000.webp"; "img/users/ann-1.webp";
              "img/users/up_2" ]} ∧
  res demo_world = None ∧
  answered 400 (run (createImage env upload_c) demo_world) ∧
  images (run (createImage env upload_c) demo_world) = images demo_world ∧
  disk (run (createImage env upload_c) demo_world)
    = {[ "img/a.jpg"; "img/1700000000000.webp"; "img/users/ann-1.webp";
         "img/users/up_2" ]}.
Proof.
  cbv zeta.
  assert (Hfree : ∀ r, r ∈ images demo_world → img_gallery r = "g1" →
                       img_url r ≠ "c.jpg").
  { intros r Hin _. apply list_elem_of_singleton in Hin as ->. discriminate. }
  assert (Hdisk : disk_after_image_upload (demo_env false true) upload_c
                    (disk demo_world)
                  = Some {[ "img/a.jpg"; "img/1700000000000.webp";
                            "img/users/ann-1.webp"; "img/users/up_2" ]}).
  { vm_compute. reflexivity. }
  split; [reflexivity|]. split; [exact Hfree|]. split; [exact Hdisk|].
  split; [reflexivity|].
  exact (createImage_store_refuses (demo_env false true) upload_c demo_world
           "c.jpg" "third" "g1" _ eq_refl eq_refl eq_refl eq_refl eq_refl
           Hfree Hdisk eq_refl eq_refl eq_refl).
Defined.



(** ** What the routers serve *)

(** X17.  For the methods GET, POST, PUT and DELETE the routers serve
    nothing but their registered routes.  The image router answers GET and
    POST at its root and PUT and DELETE at one segment, so that a GET with
    an id reaches no handler.  The auth router sends every GET at one
    segment to [readAvatar], the words "password" and "recaptcha"
    included, POST at the root to [loginUser] and POST at those two words,
    in whatever case their letters are written, to their handlers. *)
Theorem routers_serve_nothing_else (m : Method) (path : list string) :
  dispatch ImageRoute m path
    = match m, path with
      | GET, [] => Some [ImageCtrl_listImages]
      | POST, [] => Some [checkAuth; ImageCtrl_createImage]
      | PUT, [_] => Some [checkAuth; ImageCtrl_updateImage]
      | DELETE, [_] => Some [checkAuth; ImageCtrl_deleteImage]
      | _, _ => None
      end ∧
  dispatch AuthRoute m path
    = match m, path with
      | GET, [_] => Some [AuthCtrl_readAvatar]
      | POST, [] => Some [AuthCtrl_loginUser]
      | POST, [x] =>
          if bool_decide (lower x = "password") then Some [AuthCtrl_forgotPassword]
          else if bool_decide (lower x = "recaptcha")
               then Some [AuthCtrl_checkRecaptcha]
          else None
      | _, _ => None
      end ∧
  dispatch AuthRoute POST ["PASSWORD"] = Some [AuthCtrl_forgotPassword].
Proof.
  split; [|split; [|reflexivity]].
  - destruct m; destruct path as [|x [|y path]]; reflexivity.
  - destruct m; destruct path as [|x [|y path]]; try reflexivity.
    2:{ unfold dispatch, AuthRoute.
        rewrite !filter_cons_False, filter_nil; [done|..]; simpl;
          intros [Hm H]; try discriminate; try done;
          apply andb_prop_elim in H as [_ H]; done. }
    unfold dispatch, AuthRoute.
    rewrite filter_cons_False by (simpl; intros [? _]; discriminate).
    rewrite filter_cons_False by (simpl; intros [_ ?]; done).
    destruct (decide (lower x = "password")) as [Hp|Hp].
    { rewrite (bool_decide_eq_true_2 (lower x = "password")) by done.
      rewrite filter_cons_True; [done|].
      split; [done|]. simpl. apply andb_prop_intro. split; [|done].
      apply bool_decide_pack. by rewrite Hp. }
    rewrite (bool_decide_eq_false_2 (lower x = "password")) by done.
    rewrite filter_cons_False.
    2:{ simpl. intros [_ H]. apply andb_prop_elim in H as [H _].
        apply bool_decide_unpack in H. by apply Hp. }
    destruct (decide (lower x = "recaptcha")) as [Hq|Hq].
    { rewrite (bool_decide_eq_true_2 (lower x = "recaptcha")) by done.
      rewrite filter_cons_True; [done|].
      split; [done|]. simpl. apply andb_prop_intro. split; [|done].
      apply bool_decide_pack. by rewrite Hq. }
    rewrite (bool_decide_eq_false_2 (lower x = "recaptcha")) by done.
    rewrite filter_cons_False; [done|].
    simpl. intros [_ H]. apply andb_prop_elim in H as [H _].
    apply bool_decide_unpack in H. by apply Hq.
Qed.
